(** * camlistore, package schema: a shallow embedding of pkg/schema/schema.go

    The schema layer builds and reads the JSON "schema blobs" of the
    store.  Go strings are byte sequences and are modelled by [string]
    (a list of 8-bit [ascii]); [map[string]interface{}] is a [gmap string
    value]; pointers that may be nil are [option]s; an [error] result is
    the [Err] case of [result]. *)

From Stdlib Require Import ZArith Lia List Ascii String.
From Stdlib Require Import Floats.SpecFloat.
From stdpp Require Import base option list gmap strings sorting.

Local Open Scope string_scope.
Local Open Scope Z_scope.

(** ** Go values used by the package *)

Module Go.

(** Two's complement wrap-around of Go's fixed-width integers. *)
Definition wrap_int64 (z : Z) : Z := (z + 2^63) mod 2^64 - 2^63.
Definition wrap_uint64 (z : Z) : Z := z mod 2^64.
Definition is_int64 (z : Z) : Prop := - 2^63 <= z < 2^63.
Definition is_uint64 (z : Z) : Prop := 0 <= z < 2^64.

(** A byte of a Go string. *)
Definition byte_of_Z (z : Z) : ascii := ascii_of_N (Z.to_N z).

(** Go's [float64] is IEEE 754 binary64. *)
Definition float64 : Type := spec_float.

(** The integer part of a finite float (the fraction is discarded,
    truncation towards zero); [None] for NaN and the infinities. *)
Definition float64_trunc (f : float64) : option Z :=
  match f with
  | S754_zero _ => Some 0
  | S754_finite s m e =>
      let mag := if 0 <=? e then Z.pos m * 2 ^ e else Z.pos m / 2 ^ (- e) in
      Some (if s then - mag else mag)
  | S754_infinity _ | S754_nan => None
  end.

(** The conversion [byte(num)] of a [float64].  The language fixes the
    result when the truncated value fits the result type; otherwise "the
    conversion succeeds but the result value is implementation-dependent":
    [overflow] is what the compiler and machine at hand produce then. *)
Definition byte_of_float64 (overflow : float64 -> ascii) (f : float64) : ascii :=
  match float64_trunc f with
  | Some z => if (0 <=? z) && (z <? 256) then byte_of_Z z else overflow f
  | None => overflow f
  end.

(** Values a caller receives from [json.Unmarshal] into [interface{}],
    and the Go [int], which the decoder never produces but a program may
    store. *)
#[warnings="-register-all"]
Inductive iface :=
| INil
| IBool (b : bool)
| IFloat64 (f : float64)
| IString (s : string)
| IInt (i : Z)
| IArray (l : list iface)
| IObject (l : list (string * iface)).

End Go.

(** ** camlistore.org/pkg/blobref *)

(** Modelled from the spec: the blobref package is not part of the
    sources; a BlobRef is "a value identifying a blob by hash algorithm +
    digest, stringifies as algo-digest, equality by value". *)
Record BlobRef := mkBlobRef { hashName : string; digest : string }.

Definition BlobRef_String (b : BlobRef) : string :=
  hashName b +:+ "-" +:+ digest b.

(** ** Errors of the package *)

Inductive error :=
| ErrNoCamliVersion                     (* "schema: no camliVersion key in map" *)
| ErrUnimplemented                      (* "schema: unimplemented" *)
| ErrSsNil                              (* "ss was nil" *)
| ErrSsBlobRefNil                       (* "ss.BlobRef was nil" *)
| ErrInvalidCamliType (ty : string)     (* "invalid DirectoryEntry camliType of %q" *)
| ErrNotCamliType (have want : string)  (* "DirectoryEntry is camliType %q, not %q" *)
| ErrSymlinkTODO                        (* "TODO: Symlink not implemented" *)
| ErrBothRefs                           (* "schema: part contains both blobRef and bytesRef" *)
| ErrSizeMismatch (size sumSize : Z)    (* "schema: declared size %d doesn't match sum of parts size %d" *)
| ErrMarshal                            (* an error of encoding/json *)
| ErrFetch (msg : string).              (* an error of the reader constructors *)

Inductive result (A : Type) :=
| Ok (a : A)
| Err (e : error).
Arguments Ok {A} a.
Arguments Err {A} e.

Definition is_err {A} (r : result A) : Prop :=
  match r with Ok _ => False | Err _ => True end.

(** ** Superset and BytesPart *)

Record BytesPart := mkBytesPart {
  Size : Z;                     (* uint64 *)
  PartBlobRef : option BlobRef; (* BlobRef  *blobref.BlobRef *)
  BytesRef : option BlobRef;
  Offset : Z                    (* uint64 *)
}.

Record Superset := mkSuperset {
  SsBlobRef : option BlobRef;   (* BlobRef *blobref.BlobRef *)
  Version : Z;
  Type_ : string;               (* Type *)
  Signer : string;
  Sig : string;
  ClaimType : string;
  ClaimDate : string;
  Permanode : string;
  Attribute : string;
  Value : string;
  FileName : string;
  FileNameBytes : list Go.iface;
  SymlinkTarget : string;
  SymlinkTargetBytes : list Go.iface;
  UnixPermission : string;
  UnixOwnerId : Z;
  UnixOwner : string;
  UnixGroupId : Z;
  UnixGroup : string;
  UnixMtime : string;
  UnixCtime : string;
  UnixAtime : string;
  Parts : list BytesPart;
  Entries : string;
  Members : list string
}.

Section MixedArray.
(** What [byte(num)] yields when [num] does not fit a byte. *)
Variable overflow : Go.float64 -> ascii.

(** One turn of the loop of [stringFromMixedArray] on the buffer. *)
Definition mixedStep (buf : string) (part : Go.iface) : string :=
  match part with
  | Go.IString s => buf +:+ s
  | Go.IFloat64 num => buf +:+ String (Go.byte_of_float64 overflow num) ""
  | _ => buf
  end.

Definition stringFromMixedArray (parts : list Go.iface) : string :=
  fold_left mixedStep parts "".

Definition SymlinkTargetString (ss : Superset) : string :=
  if decide (SymlinkTarget ss <> "") then SymlinkTarget ss
  else stringFromMixedArray (SymlinkTargetBytes ss).

Definition FileNameString (ss : Superset) : string :=
  if decide (FileName ss <> "") then FileName ss
  else stringFromMixedArray (FileNameBytes ss).

Definition HasFilename (ss : Superset) (name : string) : bool :=
  bool_decide (FileNameString ss = name).
End MixedArray.

Definition SumPartsSize (ss : Superset) : Z :=
  fold_left (fun size part => Go.wrap_uint64 (size + Size part)) (Parts ss) 0.

(** ** Directory entries *)

Section DirEntry.
(** The fetch capability and the two readers are defined outside
    schema.go. *)
Variables SeekFetcher FileReader DirReader : Type.

Record dirEntry := mkDirEntry {
  ss : Superset;
  fetcher : SeekFetcher;
  fr : option FileReader;   (* or nil if not a file *)
  dr : option DirReader     (* or nil if not a directory *)
}.

Definition CamliType (de : dirEntry) : string := Type_ (ss de).
Definition dirEntry_BlobRef (de : dirEntry) : option BlobRef := SsBlobRef (ss de).

(** [NewFileReader] and [NewDirReader] fetch the blob: what a call
    returns is the environment's answer at that call, either a (non-nil)
    reader or an error. *)
Definition File
    (NewFileReader : SeekFetcher -> option BlobRef -> result FileReader)
    (de : dirEntry) : dirEntry * result FileReader :=
  match fr de with
  | None =>
      if decide (Type_ (ss de) <> "file") then
        (de, Err (ErrNotCamliType (Type_ (ss de)) "file"))
      else
        match NewFileReader (fetcher de) (SsBlobRef (ss de)) with
        | Err err => (de, Err err)
        | Ok r =>
            (mkDirEntry (ss de) (fetcher de) (Some r) (dr de), Ok r)
        end
  | Some r => (de, Ok r)
  end.

Definition Directory
    (NewDirReader : SeekFetcher -> option BlobRef -> result DirReader)
    (de : dirEntry) : dirEntry * result DirReader :=
  match dr de with
  | None =>
      if decide (Type_ (ss de) <> "directory") then
        (de, Err (ErrNotCamliType (Type_ (ss de)) "directory"))
      else
        match NewDirReader (fetcher de) (SsBlobRef (ss de)) with
        | Err err => (de, Err err)
        | Ok r =>
            (mkDirEntry (ss de) (fetcher de) (fr de) (Some r), Ok r)
        end
  | Some r => (de, Ok r)
  end.

Definition Symlink (de : dirEntry) : dirEntry * result unit :=
  (de, Err ErrSymlinkTODO).

Definition validEntryType (ty : string) : bool :=
  bool_decide (ty = "file") || bool_decide (ty = "directory")
  || bool_decide (ty = "symlink").

Definition NewDirectoryEntry (f : SeekFetcher) (ssp : option Superset)
    : result dirEntry :=
  match ssp with
  | None => Err ErrSsNil
  | Some s =>
      match SsBlobRef s with
      | None => Err ErrSsBlobRefNil
      | Some _ =>
          if validEntryType (Type_ s) then Ok (mkDirEntry s f None None)
          else Err (ErrInvalidCamliType (Type_ s))
      end
  end.

(** The entries a program can hold: [dirEntry] is unexported, so every
    entry comes from [NewDirectoryEntry] and changes only through its
    methods. *)
Inductive reachable : dirEntry -> Prop :=
| reach_new f s de :
    NewDirectoryEntry f (Some s) = Ok de -> reachable de
| reach_File nfr de :
    reachable de -> reachable (fst (File nfr de))
| reach_Directory ndr de :
    reachable de -> reachable (fst (Directory ndr de)).
End DirEntry.

(** ** Schema maps: [map[string]interface{}] *)

(** The values the package stores in a schema map. *)
#[warnings="-register-all"]
Inductive value :=
| VInt (i : Z)                           (* int *)
| VUint64 (n : Z)                        (* uint64 *)
| VBool (b : bool)
| VString (s : string)
| VStrings (l : list string)             (* []string *)
| VBytes (b : string)                    (* []uint8 *)
| VMaps (l : list (gmap string value))   (* []map[string]interface{} *)
| VOther (what : string).                (* any other Go value: a channel, a function, ... *)

Definition newCamliMap (version : Z) (ctype : string) : gmap string value :=
  <["camliType" := VString ctype]> (<["camliVersion" := VInt version]> ∅).

(** ** encoding/json and fmt *)

Definition dquote : string := String "034"%char "".
Definition newline : string := String "010"%char "".

(** Keys are written in increasing byte order. *)
Definition keyLe (a b : string * value) : Prop := String.le a.1 b.1.

#[global] Instance keyLe_dec : RelDecision keyLe.
Proof. intros a b. unfold keyLe. apply _. Defined.

Definition sortedEntries (m : gmap string value) : list (string * value) :=
  merge_sort keyLe (map_to_list m).

Fixpoint join (sep : string) (l : list string) : string :=
  match l with
  | [] => ""
  | [x] => x
  | x :: rest => x +:+ sep +:+ join sep rest
  end.

(** [s[n:]] for [n] within the string. *)
Fixpoint string_drop (n : nat) (s : string) : string :=
  match n, s with
  | O, _ => s
  | S n', String _ s' => string_drop n' s'
  | S _, EmptyString => EmptyString
  end.

(** What the libraries print for a single value: the JSON text of a
    string and of a value (or an error, for a value encoding/json
    refuses), and fmt's [%v]. *)
Record Encoder := mkEncoder {
  jsonString : string -> string;
  jsonValue : value -> option string;
  fmtV : value -> string
}.

Section JSON.
Variable enc : Encoder.

(** One member of an object, on a line of its own, indented. *)
Definition memberLine (k : string) (text : string) : string :=
  "  " +:+ jsonString enc k +:+ ": " +:+ text.

Definition encodeEntry (kv : string * value) : option (string * string) :=
  text ← jsonValue enc kv.2; Some (kv.1, text).

Definition marshalEntries (m : gmap string value)
    : option (list (string * string)) :=
  mapM encodeEntry (sortedEntries m).

Definition renderObject (members : list (string * string)) : string :=
  match members with
  | [] => "{}"
  | _ => "{" +:+ newline
         +:+ join ("," +:+ newline) (map (fun kt => memberLine kt.1 kt.2) members)
         +:+ newline +:+ "}"
  end.

(** [json.MarshalIndent(m, "", "  ")] on a map. *)
Definition MarshalIndent (m : gmap string value) : option string :=
  renderObject <$> marshalEntries m.

(** The map is shared with the caller: the first component is the map
    as the call leaves it. *)
Definition MapToCamliJSON (m : gmap string value)
    : gmap string value * result string :=
  match m !! "camliVersion" with
  | None => (m, Err ErrNoCamliVersion)
  | Some version =>
      let m1 := delete "camliVersion" m in
      match MarshalIndent m1 with
      | None => (m1, Err ErrMarshal)
      | Some jsonBytes =>
          (<["camliVersion" := version]> m1,
           Ok ("{" +:+ dquote +:+ "camliVersion" +:+ dquote +:+ ": "
               +:+ fmtV enc version +:+ "," +:+ newline
               +:+ string_drop 2 jsonBytes))
      end
  end.
End JSON.


(** ** Parts *)

Definition withRef (part : BytesPart) (mpart : gmap string value)
    : result (gmap string value) :=
  match PartBlobRef part, BytesRef part with
  | Some _, Some _ => Err ErrBothRefs
  | Some b, None => Ok (<["blobRef" := VString (BlobRef_String b)]> mpart)
  | None, Some b => Ok (<["bytesRef" := VString (BlobRef_String b)]> mpart)
  | None, None => Ok mpart
  end.

Definition withOffset (part : BytesPart) (mpart : gmap string value)
    : gmap string value :=
  if decide (Offset part <> 0) then <["offset" := VUint64 (Offset part)]> mpart
  else mpart.

(** The body of the loop for one part: the map for the part, or the
    error that leaves the function. *)
Definition partMap (part : BytesPart) : result (gmap string value) :=
  match withRef part ∅ with
  | Err e => Err e
  | Ok mpart => Ok (withOffset part (<["size" := VUint64 (Size part)]> mpart))
  end.

(** The loop over [parts] from index [idx], on the state [sumSize],
    [mparts]. *)
Fixpoint partsLoop (idx : nat) (parts : list BytesPart) (sumSize : Z)
    (mparts : list (gmap string value))
    : result (Z * list (gmap string value)) :=
  match parts with
  | [] => Ok (sumSize, mparts)
  | part :: rest =>
      match partMap part with
      | Err e => Err e
      | Ok mpart =>
          partsLoop (S idx) rest
            (Go.wrap_int64 (sumSize + Go.wrap_int64 (Size part)))
            (<[idx := mpart]> mparts)
      end
  end.

(** How a call ends: it returns (nil or an error) or panics. *)
Inductive outcome :=
| Returned (err : option error)
| Panicked.

(** [m] is [None] for a nil map, on which an assignment panics. *)
Definition PopulateParts (m : option (gmap string value)) (size : Z)
    (parts : list BytesPart) : option (gmap string value) * outcome :=
  match partsLoop 0 parts 0 (replicate (length parts) ∅) with
  | Err e => (m, Returned (Some e))
  | Ok (sumSize, mparts) =>
      if decide (sumSize <> size) then
        (m, Returned (Some (ErrSizeMismatch size sumSize)))
      else
        match m with
        | None => (m, Panicked)
        | Some g => (Some (<["parts" := VMaps mparts]> g), Returned None)
        end
  end.

(** ** Package time

    The part of Go's package time (time.go and format.go) that
    [RFC3339FromTime] and [NanosFromRFC3339] run: the representation of
    an instant, the civil date of an instant, [Format] for the layouts
    RFC3339 and RFC3339Nano, and [Parse] for the layout RFC3339. *)

Module GoTime.

Definition secondsPerMinute : Z := 60.
Definition secondsPerHour : Z := 60 * 60.
Definition secondsPerDay : Z := 24 * secondsPerHour.
Definition daysPer400Years : Z := 365 * 400 + 97.
Definition daysPer100Years : Z := 365 * 100 + 24.
Definition daysPer4Years : Z := 365 * 4 + 1.

Definition absoluteZeroYear : Z := -292277022399.
Definition absoluteToInternal : Z := -9223371966579724800.
Definition internalToAbsolute : Z := - absoluteToInternal.
Definition unixToInternal : Z :=
  (1969 * 365 + 1969 / 4 - 1969 / 100 + 1969 / 400) * secondsPerDay.
Definition internalToUnix : Z := - unixToInternal.

(** A location gives the offset (seconds east of UTC) in use at a Unix
    time. *)
Inductive Location :=
| UTCLoc
| Zone (offsetAt : Z -> Z).

(** [sec] counts seconds since January 1, year 1 00:00:00 UTC (an
    int64); [nsec] is the nanosecond within the second, in
    [0, 999999999]. *)
Record Time := mkTime { sec : Z; nsec : Z; loc : Location }.

Definition wfTime (t : Time) : Prop :=
  Go.is_int64 (sec t) /\ 0 <= nsec t < 1000000000.

Definition UTC (t : Time) : Time := mkTime (sec t) (nsec t) UTCLoc.

Definition Unix (t : Time) : Z := Go.wrap_int64 (sec t + internalToUnix).

Definition UnixNano (t : Time) : Z :=
  Go.wrap_int64 ((sec t + internalToUnix) * 1000000000 + nsec t).

Definition Nanosecond (t : Time) : Z := nsec t.

(** Seconds since the absolute zero year, in the time's location (a
    uint64). *)
Definition abs (t : Time) : Z :=
  let offset := match loc t with
                | UTCLoc => 0
                | Zone f => f (Unix t)
                end in
  Go.wrap_uint64 (sec t + offset + internalToAbsolute).

Definition zoneOffset (t : Time) : Z :=
  match loc t with
  | UTCLoc => 0
  | Zone f => f (Unix t)
  end.

Definition isLeap (year : Z) : bool :=
  (Z.rem year 4 =? 0) && (negb (Z.rem year 100 =? 0) || (Z.rem year 400 =? 0)).

(** [daysBefore[m]]: the days in a non-leap year before month [m+1]. *)
Definition daysBefore (m : Z) : Z :=
  nth (Z.to_nat m) [0; 31; 59; 90; 120; 151; 181; 212; 243; 273; 304; 334; 365] 0.

(** [absDate]: year, month (1 to 12) and day of the month. *)
Definition absDate (abs : Z) : Z * Z * Z :=
  let d := abs / secondsPerDay in
  let n := d / daysPer400Years in
  let y := 400 * n in
  let d := d - daysPer400Years * n in
  let n := d / daysPer100Years in
  let n := n - Z.shiftr n 2 in
  let y := y + 100 * n in
  let d := d - daysPer100Years * n in
  let n := d / daysPer4Years in
  let y := y + 4 * n in
  let d := d - daysPer4Years * n in
  let n := d / 365 in
  let n := n - Z.shiftr n 2 in
  let y := y + n in
  let d := d - 365 * n in
  let year := y + absoluteZeroYear in
  let yday := d in
  let day := yday in
  if isLeap year && (day =? 31 + 29 - 1) then (year, 2, 29)
  else
    let day := if isLeap year && (31 + 29 - 1 <? day) then day - 1 else day in
    let month := day / 31 in
    let end_ := daysBefore (month + 1) in
    if end_ <=? day then (year, month + 2, day - end_ + 1)
    else (year, month + 1, day - daysBefore month + 1).

(** [absClock]: hour, minute and second within the day. *)
Definition absClock (abs : Z) : Z * Z * Z :=
  let sec := abs mod secondsPerDay in
  let hour := sec / secondsPerHour in
  let sec := sec - hour * secondsPerHour in
  let min := sec / secondsPerMinute in
  let sec := sec - min * secondsPerMinute in
  (hour, min, sec).

(** [Date] in UTC, for fields already in their ranges. *)
Definition Date (year month day hour min sec nsec : Z) : Time :=
  let y := year - absoluteZeroYear in
  let n := y / 400 in
  let y := y - 400 * n in
  let d := daysPer400Years * n in
  let n := y / 100 in
  let y := y - 100 * n in
  let d := d + daysPer100Years * n in
  let n := y / 4 in
  let y := y - 4 * n in
  let d := d + daysPer4Years * n in
  let d := d + 365 * y in
  let d := d + daysBefore (month - 1) in
  let d := if isLeap year && (3 <=? month) then d + 1 else d in
  let d := d + (day - 1) in
  let abs := d * secondsPerDay in
  let abs := abs + (hour * secondsPerHour + min * secondsPerMinute + sec) in
  let unix := abs + (absoluteToInternal + internalToUnix) in
  mkTime (Go.wrap_int64 (unix + unixToInternal)) nsec UTCLoc.

(** *** Format *)

Definition digit (d : Z) : ascii := ascii_of_N (Z.to_N (48 + d)).

(** The decimal digits of [x >= 0] in front of [acc]. *)
Fixpoint digits (fuel : nat) (x : Z) (acc : string) : string :=
  match fuel with
  | O => acc
  | S fuel' =>
      if x <? 10 then String (digit x) acc
      else digits fuel' (x / 10) (String (digit (x mod 10)) acc)
  end.

(** [appendUint(b, x, '0')] for [x >= 0]: at least two digits. *)
Definition zeroPad (x : Z) : string :=
  if x <? 10 then String "0"%char (String (digit x) "")
  else digits 20 x "".

(** The year, padded to at least four digits. *)
Definition longYear (year : Z) : string :=
  if year <? 0 then "-" +:+ (
    let y := - year in
    if y <? 10 then "000" +:+ digits 20 y ""
    else if y <? 100 then "00" +:+ digits 20 y ""
    else if y <? 1000 then "0" +:+ digits 20 y ""
    else digits 20 y "")
  else if year <? 10 then "000" +:+ digits 20 year ""
  else if year <? 100 then "00" +:+ digits 20 year ""
  else if year <? 1000 then "0" +:+ digits 20 year ""
  else digits 20 year "".

(** Drops the zeros at the end of the nine digits of a fraction, given
    last digit first. *)
Fixpoint trimZeros (rev_digits : list ascii) : list ascii :=
  match rev_digits with
  | c :: rest => if Ascii.eqb c "0"%char then trimZeros rest else rev_digits
  | [] => []
  end.

Definition nineDigits (nanosec : Z) : list ascii :=
  map (fun i => digit ((nanosec / 10 ^ (8 - Z.of_nat i)) mod 10)) (seq 0 9).

(** [formatNano(nanosec, 9, true)]: the layout element .999999999 *)
Definition formatNano (nanosec : Z) : string :=
  match rev (trimZeros (rev (nineDigits nanosec))) with
  | [] => ""
  | ds => "." +:+ string_of_list_ascii ds
  end.

(** The layout element Z07:00 *)
Definition formatZone (offset : Z) : string :=
  if offset =? 0 then "Z"
  else
    let zone := Z.quot offset 60 in
    let sign := if zone <? 0 then "-" else "+" in
    let zone := Z.abs zone in
    sign +:+ zeroPad (zone / 60) +:+ ":" +:+ zeroPad (zone mod 60).

(** [t.Format(time.RFC3339)] and, with [nano], [t.Format(time.RFC3339Nano)]. *)
Definition Format (nano : bool) (t : Time) : string :=
  let '(year, month, day) := absDate (abs t) in
  let '(hour, min, sec) := absClock (abs t) in
  longYear year +:+ "-" +:+ zeroPad month +:+ "-" +:+ zeroPad day +:+ "T"
  +:+ zeroPad hour +:+ ":" +:+ zeroPad min +:+ ":" +:+ zeroPad sec
  +:+ (if nano then formatNano (Nanosecond t) else "")
  +:+ formatZone (zoneOffset t).

(** *** Parse *)

Definition isDigit (c : ascii) : bool :=
  let n := Z.of_N (N_of_ascii c) in (48 <=? n) && (n <=? 57).

Definition digitVal (c : ascii) : Z := Z.of_N (N_of_ascii c) - 48.

(** [getnum]: one or two digits, exactly two when [fixed]. *)
Definition getnum (s : string) (fixed : bool) : option (Z * string) :=
  match s with
  | String c0 s1 =>
      if isDigit c0 then
        match s1 with
        | String c1 s2 =>
            if isDigit c1 then Some (digitVal c0 * 10 + digitVal c1, s2)
            else if fixed then None else Some (digitVal c0, s1)
        | EmptyString => if fixed then None else Some (digitVal c0, s1)
        end
      else None
  | EmptyString => None
  end.

(** [skip] for a one-byte literal of the layout. *)
Definition skip (c : ascii) (value : string) : option string :=
  match value with
  | String c' rest => if Ascii.eqb c' c then Some rest else None
  | EmptyString => None
  end.

(** The leading digits of a string as a number, their count, and the
    rest. *)
Fixpoint leadingDigits (s : string) (x : Z) (n : nat) : Z * nat * string :=
  match s with
  | String c rest =>
      if isDigit c then leadingDigits rest (x * 10 + digitVal c) (S n)
      else (x, n, s)
  | EmptyString => (x, n, s)
  end.

(** The layout element 2006: four bytes, all digits. *)
Definition parseYear (value : string) : option (Z * string) :=
  match value with
  | String a (String b (String c (String d rest))) =>
      if isDigit a && isDigit b && isDigit c && isDigit d then
        Some (((digitVal a * 10 + digitVal b) * 10 + digitVal c) * 10
              + digitVal d, rest)
      else None
  | _ => None
  end.

(** A fractional second in the input after the seconds, which [Parse]
    accepts though the layout has none. *)
Definition parseFraction (value : string) : option (Z * string) :=
  match value with
  | String "." (String c rest) =>
      if isDigit c then
        let '(ns, n, rest') := leadingDigits (String c rest) 0 0 in
        if 1000000000 <=? ns then None
        else Some (ns * 10 ^ (Z.max 0 (9 - Z.of_nat n)), rest')
      else Some (0, value)
  | _ => Some (0, value)
  end.

(** The layout element Z07:00: the offset in seconds. *)
Definition parseZone (value : string) : option (Z * string) :=
  match value with
  | String "Z" rest => Some (0, rest)
  | String sign (String h1 (String h2 (String ":" (String m1 (String m2 rest))))) =>
      if isDigit h1 && isDigit h2 && isDigit m1 && isDigit m2 then
        let off := ((digitVal h1 * 10 + digitVal h2) * 60
                    + (digitVal m1 * 10 + digitVal m2)) * 60 in
        if Ascii.eqb sign "+" then Some (off, rest)
        else if Ascii.eqb sign "-" then Some (- off, rest)
        else None
      else None
  | _ => None
  end.

(** A range check of [Parse]: an error when [b] is false. *)
Definition check (b : bool) : option unit := if b then Some tt else None.

(** [time.Parse(time.RFC3339, value)]; [None] is an error. *)
Definition Parse (value : string) : option Time :=
  '(year, value) ← parseYear value;
  value ← skip "-" value;
  '(month, value) ← getnum value true;
  _ ← check ((0 <? month) && (month <=? 12));
  value ← skip "-" value;
  '(day, value) ← getnum value true;
  _ ← check (day <=? 31);
  value ← skip "T" value;
  '(hour, value) ← getnum value false;
  _ ← check (hour <? 24);
  value ← skip ":" value;
  '(min, value) ← getnum value true;
  _ ← check (min <? 60);
  value ← skip ":" value;
  '(second, value) ← getnum value true;
  _ ← check (second <? 60);
  '(nanos, value) ← parseFraction value;
  '(offset, value) ← parseZone value;
  _ ← check (bool_decide (value = ""));
  let t := Date year month day hour min second nanos in
  Some (mkTime (Go.wrap_int64 (sec t - offset)) (nsec t)
          (if offset =? 0 then UTCLoc else Zone (fun _ => offset))).

End GoTime.

(** ** Timestamps *)

(** RFC3339FromTime returns an RFC3339-formatted time in UTC.
    Fractional seconds are only included if the time has fractional
    seconds. *)
Definition RFC3339FromTime (t : GoTime.Time) : string :=
  if Z.rem (GoTime.UnixNano t) 1000000000 =? 0 then
    GoTime.Format false (GoTime.UTC t)
  else GoTime.Format true (GoTime.UTC t).

Definition NanosFromRFC3339 (timestr : string) : Z :=
  match GoTime.Parse timestr with
  | None => -1
  | Some t => GoTime.UnixNano t
  end.

(** ** Claims *)

Section Claims.
(** The instant [time.Now()] returns to the call. *)
Variable now : GoTime.Time.

Definition NewClaim (permaNode : BlobRef) (claimType : string)
    : gmap string value :=
  let m := newCamliMap 1 "claim" in
  let m := <["permaNode" := VString (BlobRef_String permaNode)]> m in
  let m := <["claimType" := VString claimType]> m in
  <["claimDate" := VString (RFC3339FromTime now)]> m.

Definition newAttrChangeClaim (permaNode : BlobRef)
    (claimType attr val : string) : gmap string value :=
  let m := NewClaim permaNode claimType in
  let m := <["attribute" := VString attr]> m in
  <["value" := VString val]> m.

Definition NewSetAttributeClaim (permaNode : BlobRef) (attr val : string)
    : gmap string value :=
  newAttrChangeClaim permaNode "set-attribute" attr val.

Definition NewAddAttributeClaim (permaNode : BlobRef) (attr val : string)
    : gmap string value :=
  newAttrChangeClaim permaNode "add-attribute" attr val.

Definition NewDelAttributeClaim (permaNode : BlobRef) (attr : string)
    : gmap string value :=
  let m := newAttrChangeClaim permaNode "del-attribute" attr "" in
  delete "value" m.
End Claims.


Definition NewBytes : gmap string value := newCamliMap 1 "bytes".

Arguments mkDirEntry {SeekFetcher FileReader DirReader}.
Arguments ss {SeekFetcher FileReader DirReader}.
Arguments fetcher {SeekFetcher FileReader DirReader}.
Arguments fr {SeekFetcher FileReader DirReader}.
Arguments dr {SeekFetcher FileReader DirReader}.
Arguments CamliType {SeekFetcher FileReader DirReader}.
Arguments File {SeekFetcher FileReader DirReader}.
Arguments Directory {SeekFetcher FileReader DirReader}.
Arguments NewDirectoryEntry {SeekFetcher} FileReader DirReader.
Arguments reachable {SeekFetcher FileReader DirReader}.

(** * Vocabulary of the properties *)

(** ** Mixed arrays and Supersets *)

(** What one element of a mixed array adds to the decoded string. *)
Definition contribution (overflow : Go.float64 -> ascii) (part : Go.iface)
    : string :=
  match part with
  | Go.IString s => s
  | Go.IFloat64 num => String (Go.byte_of_float64 overflow num) ""
  | _ => ""
  end.

Fixpoint concatStrings (l : list string) : string :=
  match l with
  | [] => ""
  | s :: rest => s +:+ concatStrings rest
  end.

(** The entries reached from an entry by later calls of its methods. *)
Inductive later {SF FR DR : Type} : dirEntry SF FR DR -> dirEntry SF FR DR -> Prop :=
| later_refl de : later de de
| later_File nfr de de' : later de de' -> later de (fst (File nfr de'))
| later_Directory ndr de de' : later de de' -> later de (fst (Directory ndr de')).

(** The Go zero value of a Superset. *)
Definition zeroSuperset : Superset :=
  mkSuperset None 0 "" "" "" "" "" "" "" "" "" [] "" [] "" 0 "" 0 "" "" "" ""
    [] "" [].

Definition withFileName (name : string) (bytes : list Go.iface) (s : Superset)
    : Superset :=
  mkSuperset (SsBlobRef s) (Version s) (Type_ s) (Signer s) (Sig s)
    (ClaimType s) (ClaimDate s) (Permanode s) (Attribute s) (Value s)
    name bytes (SymlinkTarget s) (SymlinkTargetBytes s) (UnixPermission s)
    (UnixOwnerId s) (UnixOwner s) (UnixGroupId s) (UnixGroup s) (UnixMtime s)
    (UnixCtime s) (UnixAtime s) (Parts s) (Entries s) (Members s).

Definition withType (b : option BlobRef) (ty : string) (s : Superset)
    : Superset :=
  mkSuperset b (Version s) ty (Signer s) (Sig s)
    (ClaimType s) (ClaimDate s) (Permanode s) (Attribute s) (Value s)
    (FileName s) (FileNameBytes s) (SymlinkTarget s) (SymlinkTargetBytes s)
    (UnixPermission s)
    (UnixOwnerId s) (UnixOwner s) (UnixGroupId s) (UnixGroup s) (UnixMtime s)
    (UnixCtime s) (UnixAtime s) (Parts s) (Entries s) (Members s).

(** ** Directory entries *)

(** A reader is cached only on an entry of its own type. *)
Definition cacheInv {SF FR DR : Type} (de : dirEntry SF FR DR) : Prop :=
  (is_Some (fr de) -> Type_ (ss de) = "file")
  /\ (is_Some (dr de) -> Type_ (ss de) = "directory").

(** ** MapToCamliJSON *)

(** The text [MapToCamliJSON] returns, from the text of the version and
    the members that follow. *)
Definition camliText (enc : Encoder) (version : string)
    (members : list (string * string)) : string :=
  "{" +:+ dquote +:+ "camliVersion" +:+ dquote +:+ ": " +:+ version
  +:+ "," +:+ newline
  +:+ match members with
      | [] => ""
      | _ => join ("," +:+ newline)
               (map (fun kt => memberLine enc kt.1 kt.2) members)
             +:+ newline +:+ "}"
      end.

(** ** PopulateParts *)

Definition bothRefs (part : BytesPart) : Prop :=
  is_Some (PartBlobRef part) /\ is_Some (BytesRef part).

#[global] Instance bothRefs_dec part : Decision (bothRefs part).
Proof. unfold bothRefs. apply _. Defined.

(** The sum of the sizes as a number. *)
Definition totalSize (parts : list BytesPart) : Z :=
  foldr (fun part acc => Size part + acc) 0 parts.

(** The map written for a part that has at most one reference. *)
Definition partMapOf (part : BytesPart) : gmap string value :=
  withOffset part
    (<["size" := VUint64 (Size part)]>
       match PartBlobRef part, BytesRef part with
       | Some b, _ => <["blobRef" := VString (BlobRef_String b)]> ∅
       | None, Some b => <["bytesRef" := VString (BlobRef_String b)]> ∅
       | None, None => ∅
       end).

(** What the map of a part holds. *)
Definition partEntry (part : BytesPart) (mpart : gmap string value) : Prop :=
  mpart !! "size" = Some (VUint64 (Size part))
  /\ mpart !! "blobRef" = (fun b => VString (BlobRef_String b)) <$> PartBlobRef part
  /\ mpart !! "bytesRef" = (fun b => VString (BlobRef_String b)) <$> BytesRef part
  /\ ~ (is_Some (mpart !! "blobRef") /\ is_Some (mpart !! "bytesRef"))
  /\ mpart !! "offset"
     = (if decide (Offset part <> 0) then Some (VUint64 (Offset part)) else None)
  /\ forall k, is_Some (mpart !! k) ->
       k = "size" \/ k = "blobRef" \/ k = "bytesRef" \/ k = "offset".

(** ** Timestamps *)

Module TimeModel.
Import GoTime.

(** The civil date of day [d] of a 400-year cycle whose first year is
    [base + 1]: what [absDate] computes after it has cut off the whole
    cycles. *)
Definition cycleDate (base d : Z) : Z * Z * Z :=
  let n := d / daysPer100Years in
  let n := n - Z.shiftr n 2 in
  let y := 100 * n in
  let d := d - daysPer100Years * n in
  let n := d / daysPer4Years in
  let y := y + 4 * n in
  let d := d - daysPer4Years * n in
  let n := d / 365 in
  let n := n - Z.shiftr n 2 in
  let y := y + n in
  let d := d - 365 * n in
  let year := base + y in
  let day := d in
  if isLeap year && (day =? 31 + 29 - 1) then (year, 2, 29)
  else
    let day := if isLeap year && (31 + 29 - 1 <? day) then day - 1 else day in
    let month := day / 31 in
    let end_ := daysBefore (month + 1) in
    if end_ <=? day then (year, month + 2, day - end_ + 1)
    else (year, month + 1, day - daysBefore month + 1).

(** The day of the cycle of a date in year [y] of the cycle: what [Date]
    adds to the days of the whole cycles. *)
Definition cycleDay (y year month day : Z) : Z :=
  let n := y / 100 in
  let y := y - 100 * n in
  let d := daysPer100Years * n in
  let n := y / 4 in
  let y := y - 4 * n in
  let d := d + daysPer4Years * n in
  let d := d + 365 * y in
  let d := d + daysBefore (month - 1) in
  let d := if isLeap year && (3 <=? month) then d + 1 else d in
  d + (day - 1).

(** [f] holds on the [p] integers from [lo]. *)
Fixpoint checkFrom (f : Z -> bool) (p : positive) (lo : Z) : bool :=
  match p with
  | xH => f lo
  | xO q => checkFrom f q lo && checkFrom f q (lo + Z.pos q)
  | xI q => f lo && checkFrom f q (lo + 1) && checkFrom f q (lo + 1 + Z.pos q)
  end.

(** Day [d] of the cycle has a date within the ranges of the layout,
    from which [Date] finds the day again. *)
Definition dayOK (base d : Z) : bool :=
  let '(year, m, dd) := cycleDate base d in
  let y := year - base in
  (0 <=? y) && (y <? 400) && (1000 <=? year) && (year <=? 9999)
  && (1 <=? m) && (m <=? 12) && (1 <=? dd) && (dd <=? 31)
  && (cycleDay y year m dd =? d).

Definition isDigitValue (v : Z) : Prop := 0 <= v <= 9.

(** The number written by digits, most significant first, after [x]. *)
Definition decimal (x : Z) (vs : list Z) : Z :=
  fold_left (fun acc v => acc * 10 + v) vs x.

Fixpoint dropZeros (ws : list Z) : list Z :=
  match ws with
  | w :: rest => if w =? 0 then dropZeros rest else ws
  | [] => []
  end.

(** The digits of [nanosec], most significant first. *)
Definition nineValues (nanosec : Z) : list Z :=
  map (fun i => (nanosec / 10 ^ (8 - Z.of_nat i)) mod 10) (seq 0 9).

(** The seconds, counted from year 1, of the 800 years from 1601 to
    2400. *)
Definition inCycles (s : Z) : Prop :=
  daysPer400Years * 730692560 * secondsPerDay <= s + internalToAbsolute
  < daysPer400Years * 730692562 * secondsPerDay.

End TimeModel.

(** The date and time of day of an absolute second count, as the
    layouts write them: 2006-01-02T15:04:05 *)
Definition civilText (a : Z) : string :=
  let '(year, month, day) := GoTime.absDate a in
  let '(hour, min, second) := GoTime.absClock a in
  GoTime.longYear year +:+ "-" +:+ GoTime.zeroPad month +:+ "-"
  +:+ GoTime.zeroPad day +:+ "T" +:+ GoTime.zeroPad hour +:+ ":"
  +:+ GoTime.zeroPad min +:+ ":" +:+ GoTime.zeroPad second.

(** The instants whose Unix time in nanoseconds is an int64. *)
Definition nanosFit (t : GoTime.Time) : Prop :=
  Go.is_int64 ((GoTime.sec t + GoTime.internalToUnix) * 1000000000
               + GoTime.nsec t).

(** ** Sample values *)

(** The parts of the example of the specification: two parts without
    reference. *)
Definition plainParts : list BytesPart :=
  [mkBytesPart 30 None None 0; mkBytesPart 20 None None 0].

Definition someRef : BlobRef := mkBlobRef "sha1" "0beec7b5".
Definition otherRef : BlobRef := mkBlobRef "sha1" "62cdb702".


(** An encoder for plain values: it stands for encoding/json and fmt on
    strings without characters to escape and on the small integers used
    here. *)
Definition plainEncoder : Encoder :=
  mkEncoder
    (fun s => dquote +:+ s +:+ dquote)
    (fun v => match v with
              | VString s => Some (dquote +:+ s +:+ dquote)
              | VBool b => Some (if b then "true" else "false")
              | VInt i => Some (GoTime.digits 20 i "")
              | _ => None
              end)
    (fun v => match v with
              | VInt i => GoTime.digits 20 i ""
              | _ => "?"
              end).

Definition fileEntry : dirEntry unit nat nat :=
  mkDirEntry (withType (Some someRef) "file" zeroSuperset) tt None None.

Definition dirOnlyEntry : dirEntry unit nat nat :=
  mkDirEntry (withType (Some someRef) "directory" zeroSuperset) tt None None.

Definition leapDayNoon : GoTime.Time :=
  GoTime.mkTime (1330516800 + GoTime.unixToInternal) 500000000
    (GoTime.Zone (fun _ => 3600)).

Definition year10000 : GoTime.Time :=
  GoTime.mkTime (253402300800 + GoTime.unixToInternal) 0 GoTime.UTCLoc.

Definition year2286 : GoTime.Time :=
  GoTime.mkTime (10000000000 + GoTime.unixToInternal) 709551616 GoTime.UTCLoc.

(** * The rest of the package *)

(** ** Directory entries, continued *)

Definition dirEntry_FileName (overflow : Go.float64 -> ascii)
    {SF FR DR : Type} (de : dirEntry SF FR DR) : string :=
  FileNameString overflow (ss de).

(** [setFromBlobRef] is defined outside schema.go: it fetches the blob
    and fills the fresh Superset, or fails with a message. *)
Definition NewDirectoryEntryFromBlobRef {SF : Type} (FR DR : Type)
    (setFromBlobRef : SF -> option BlobRef -> Superset -> Superset * option string)
    (f : SF) (blobRef : option BlobRef) : result (dirEntry SF FR DR) :=
  match setFromBlobRef f blobRef zeroSuperset with
  | (_, Some msg) =>
      Err (ErrFetch ("schema/filereader: can't fill Superset: " +:+ msg +:+ newline))
  | (s, None) => NewDirectoryEntry FR DR f (Some s)
  end.

Definition symlinkEntry : dirEntry unit nat nat :=
  mkDirEntry (withType (Some someRef) "symlink" zeroSuperset) tt None None.

(** ** Times of a Superset *)

(** [time.Time{}], January 1, year 1, 00:00:00 UTC (its nil location
    stands for UTC). *)
Definition zeroTime : GoTime.Time := GoTime.mkTime 0 0 GoTime.UTCLoc.

Definition IsZero (t : GoTime.Time) : bool :=
  (GoTime.sec t =? 0) && (GoTime.nsec t =? 0).

Definition ModTime (ss : Superset) : GoTime.Time :=
  if decide (UnixMtime ss = "") then zeroTime
  else
    match GoTime.Parse (UnixMtime ss) with
    | Some t => t
    | None => zeroTime
    end.

Definition withMtime (mtime : string) (s : Superset) : Superset :=
  mkSuperset (SsBlobRef s) (Version s) (Type_ s) (Signer s) (Sig s)
    (ClaimType s) (ClaimDate s) (Permanode s) (Attribute s) (Value s)
    (FileName s) (FileNameBytes s) (SymlinkTarget s) (SymlinkTargetBytes s)
    (UnixPermission s)
    (UnixOwnerId s) (UnixOwner s) (UnixGroupId s) (UnixGroup s) mtime
    (UnixCtime s) (UnixAtime s) (Parts s) (Entries s) (Members s).

Definition withParts (parts : list BytesPart) (s : Superset) : Superset :=
  mkSuperset (SsBlobRef s) (Version s) (Type_ s) (Signer s) (Sig s)
    (ClaimType s) (ClaimDate s) (Permanode s) (Attribute s) (Value s)
    (FileName s) (FileNameBytes s) (SymlinkTarget s) (SymlinkTargetBytes s)
    (UnixPermission s)
    (UnixOwnerId s) (UnixOwner s) (UnixGroupId s) (UnixGroup s) (UnixMtime s)
    (UnixCtime s) (UnixAtime s) parts (Entries s) (Members s).

(** The last nanosecond of 1969. *)
Definition lastOf1969 : GoTime.Time :=
  GoTime.mkTime (-1 + GoTime.unixToInternal) 999999999 GoTime.UTCLoc.

(** ** strconv.ParseUint

    [ParseUint(s, base, 64)] of Go's package strconv, for a base from 2
    to 36 given by the caller: the digits are read from the left and
    accumulated in a uint64; the answer is the number and the error. *)

Module Strconv.

Inductive numError := ErrSyntax | ErrRange.

Definition maxUint64 : Z := 2 ^ 64 - 1.

(** The first number [n] for which [n * base] overflows. *)
Definition cutoff64 (base : Z) : Z := maxUint64 / base + 1.

Definition digitValue (d : ascii) : option Z :=
  let c := Z.of_N (N_of_ascii d) in
  if (48 <=? c) && (c <=? 57) then Some (c - 48)             (* '0'..'9' *)
  else if (97 <=? c) && (c <=? 122) then Some (c - 97 + 10)  (* 'a'..'z' *)
  else if (65 <=? c) && (c <=? 90) then Some (c - 65 + 10)   (* 'A'..'Z' *)
  else None.

(** The loop over the bytes of the string, from the number [n] read so
    far. *)
Fixpoint parseDigits (b : Z) (s : string) (n : Z) : Z * option numError :=
  match s with
  | EmptyString => (n, None)
  | String d rest =>
      match digitValue d with
      | None => (0, Some ErrSyntax)
      | Some v =>
          if b <=? v then (0, Some ErrSyntax)
          else if cutoff64 b <=? n then (maxUint64, Some ErrRange)
          else
            let n := Go.wrap_uint64 (n * b) in
            let n1 := Go.wrap_uint64 (n + v) in
            if (n1 <? n) || (maxUint64 <? n1) then (maxUint64, Some ErrRange)
            else parseDigits b rest n1
      end
  end.

Definition ParseUint (s : string) (b : Z) : Z * option numError :=
  match s with
  | EmptyString => (0, Some ErrSyntax)
  | _ => parseDigits b s 0
  end.

End Strconv.

(** ** os.FileMode *)

Module OS.

(** A [FileMode] is a uint32. *)
Definition wrap_uint32 (z : Z) : Z := z mod 2 ^ 32.

Definition ModeDir : Z := Z.shiftl 1 31.
Definition ModeSymlink : Z := Z.shiftl 1 27.
Definition ModePerm : Z := 511.             (* 0777 *)

Definition IsDir (m : Z) : bool := negb (Z.land m ModeDir =? 0).
Definition Perm (m : Z) : Z := Z.land m ModePerm.

End OS.

Definition FileMode (ss : Superset) : Z :=
  let mode := 0 in
  let mode :=
    match Strconv.ParseUint (UnixPermission ss) 8 with
    | (m64, None) => Z.lor mode (OS.wrap_uint32 m64)
    | (_, Some _) => mode
    end in
  if decide (Type_ ss = "directory") then Z.lor mode OS.ModeDir
  else if decide (Type_ ss = "file") then mode
  else if decide (Type_ ss = "symlink") then Z.lor mode OS.ModeSymlink
  else mode.

(** *** Octal numerals *)

Definition isOctalDigit (d : ascii) : bool :=
  let c := Z.of_N (N_of_ascii d) in (48 <=? c) && (c <=? 55).

Fixpoint allOctal (s : string) : bool :=
  match s with
  | EmptyString => true
  | String d rest => isOctalDigit d && allOctal rest
  end.

(** The number that the octal digits [s] write after the number [n]. *)
Fixpoint octalFrom (n : Z) (s : string) : Z :=
  match s with
  | EmptyString => n
  | String d rest => octalFrom (n * 8 + (Z.of_N (N_of_ascii d) - 48)) rest
  end.

(** The bits the type of a Superset adds to its mode. *)
Definition typeBits (ty : string) : Z :=
  if decide (ty = "directory") then OS.ModeDir
  else if decide (ty = "symlink") then OS.ModeSymlink
  else 0.

Definition withPermission (perm : string) (s : Superset) : Superset :=
  mkSuperset (SsBlobRef s) (Version s) (Type_ s) (Signer s) (Sig s)
    (ClaimType s) (ClaimDate s) (Permanode s) (Attribute s) (Value s)
    (FileName s) (FileNameBytes s) (SymlinkTarget s) (SymlinkTargetBytes s)
    perm
    (UnixOwnerId s) (UnixOwner s) (UnixGroupId s) (UnixGroup s) (UnixMtime s)
    (UnixCtime s) (UnixAtime s) (Parts s) (Entries s) (Members s).

(** ** Static sets *)

(** The references of a set, in the order they were added.  The mutex
    orders the calls; a call is modelled as it runs once it holds the
    lock.  The references are not nil. *)
Record StaticSet := mkStaticSet { refs : list BlobRef }.

Definition StaticSet_Add (ss : StaticSet) (ref : BlobRef) : StaticSet :=
  mkStaticSet (refs ss ++ [ref])%list.

Definition StaticSet_Map (ss : StaticSet) : gmap string value :=
  let m := newCamliMap 1 "static-set" in
  let members := fold_left (fun members ref => (members ++ [BlobRef_String ref])%list)
                   (refs ss) [] in
  <["members" := VStrings members]> m.

(** ** Maps of files, symbolic links and directories *)

Section FileMaps.
(** [filepath.Base] and [utf8.ValidString] of Go's library. *)
Variable Base : string -> string.
Variable ValidString : string -> bool.

Definition NewCommonFilenameMap (fileName : string) : gmap string value :=
  let m := newCamliMap 1 "" in
  if decide (fileName <> "") then
    let baseName := Base fileName in
    if ValidString baseName then <["fileName" := VString baseName]> m
    else <["fileNameBytes" := VBytes baseName]> m
  else m.

Definition NewFileMap (fileName : string) : gmap string value :=
  let m := NewCommonFilenameMap fileName in
  <["camliType" := VString "file"]> m.

(** [os.Readlink] answers with the target of the link or an error; a nil
    map cannot be assigned to. *)
Definition PopulateSymlinkMap (Readlink : string -> result string)
    (m : option (gmap string value)) (fileName : string)
    : option (gmap string value) * outcome :=
  match m with
  | None => (None, Panicked)
  | Some g =>
      let g := <["camliType" := VString "symlink"]> g in
      match Readlink fileName with
      | Err err => (Some g, Returned (Some err))
      | Ok target =>
          if ValidString target then
            (Some (<["symlinkTarget" := VString target]> g), Returned None)
          else
            (Some (<["symlinkTargetBytes" := VBytes target]> g), Returned None)
      end
  end.
End FileMaps.

Definition PopulateDirectoryMap (m : option (gmap string value))
    (staticSetRef : BlobRef) : option (gmap string value) * outcome :=
  match m with
  | None => (None, Panicked)
  | Some g =>
      let g := <["camliType" := VString "directory"]> g in
      (Some (<["entries" := VString (BlobRef_String staticSetRef)]> g),
       Returned None)
  end.

(** *** fmt's verb o

    The digits of an unsigned number in base 8, as fmt writes them: from
    the last digit backwards into a buffer. *)
Fixpoint octalDigits (fuel : nat) (a : Z) (buf : string) : string :=
  match fuel with
  | O => buf
  | S fuel' =>
      if 8 <=? a then
        octalDigits fuel' (a / 8) (String (GoTime.digit (a mod 8)) buf)
      else String (GoTime.digit a) buf
  end.

(** A uint64 has at most 22 octal digits. *)
Definition formatOctal (a : Z) : string := octalDigits 22 a "".

(** What [NewCommonFileMap] asks of an [os.FileInfo]. *)
Record FileInfo := mkFileInfo {
  Mode : Z;                    (* os.FileMode, a uint32 *)
  FileInfo_ModTime : GoTime.Time
}.

Section CommonFileMap.
Variable Base : string -> string.
Variable ValidString : string -> bool.
(** The functions registered for the operating system (schema_posix.go
    and the like, none on App Engine): each may change the map. *)
Variable populateSchemaStat :
  list (gmap string value -> FileInfo -> gmap string value).

Definition NewCommonFileMap (fileName : string) (fi : FileInfo)
    : gmap string value :=
  let m := NewCommonFilenameMap Base ValidString fileName in
  let m :=
    if Z.land (Mode fi) OS.ModeSymlink =? 0 then
      <["unixPermission" := VString ("0" +:+ formatOctal (OS.Perm (Mode fi)))]> m
    else m in
  let m := fold_left (fun m f => f m fi) populateSchemaStat m in
  let mtime := FileInfo_ModTime fi in
  if negb (IsZero mtime) then
    <["unixMtime" := VString (RFC3339FromTime mtime)]> m
  else m.
End CommonFileMap.

(** The text of a permission is made of octal digits that write it. *)
Definition permissionOK (p : Z) : bool :=
  allOctal ("0" +:+ formatOctal p)
  && (octalFrom 0 ("0" +:+ formatOctal p) =? p).

(** A regular file with permission 0644, last modified at noon of the
    leap day of 2012. *)
Definition plainFileInfo : FileInfo := mkFileInfo 420 leapDayNoon.

(** ** encoding/base64

    [StdEncoding.EncodeToString] of Go's package encoding/base64: each
    group of three bytes is unpacked into four 6-bit blocks, written with
    the standard alphabet; the last group, when it is short, is padded
    with the character =. *)

Module Base64.

Definition encodeStd : string :=
  "ABCDEFGHIJKLMNOPQRSTUVWXYZabcdefghijklmnopqrstuvwxyz0123456789+/".

(** [enc.encode[i]] *)
Definition encodeChar (i : Z) : ascii :=
  match String.get (Z.to_nat i) encodeStd with
  | Some c => c
  | None => "000"%char
  end.

(** Shifts of a byte stay in the byte. *)
Definition shl (a n : Z) : Z := Z.shiftl a n mod 256.
Definition shr (a n : Z) : Z := Z.shiftr a n.

Definition pad : ascii := "="%char.

Fixpoint Encode (src : list Z) : list ascii :=
  match src with
  | [] => []
  | [s0] =>
      let d1 := Z.land (shl s0 4) 63 in
      let d0 := shr s0 2 in
      [encodeChar d0; encodeChar d1; pad; pad]
  | [s0; s1] =>
      let d2 := Z.land (shl s1 2) 63 in
      let d1 := shr s1 4 in
      let d1 := Z.lor d1 (Z.land (shl s0 4) 63) in
      let d0 := shr s0 2 in
      [encodeChar d0; encodeChar d1; encodeChar d2; pad]
  | s0 :: s1 :: s2 :: rest =>
      let d3 := Z.land s2 63 in
      let d2 := shr s2 6 in
      let d2 := Z.lor d2 (Z.land (shl s1 2) 63) in
      let d1 := shr s1 4 in
      let d1 := Z.lor d1 (Z.land (shl s0 4) 63) in
      let d0 := shr s0 2 in
      encodeChar d0 :: encodeChar d1 :: encodeChar d2 :: encodeChar d3
      :: Encode rest
  end.

Definition byteValues (s : string) : list Z :=
  map (fun c => Z.of_N (N_of_ascii c)) (list_ascii_of_string s).

Definition EncodeToString (src : string) : string :=
  string_of_list_ascii (Encode (byteValues src)).

End Base64.

(** [randomBytes] is what [io.ReadFull(rand.Reader, chars)] does to the
    20 bytes of [chars]: it fills them or fails.  The answer [None] is
    the panic. *)
Definition NewUnsignedPermanode (randomBytes : result string)
    : option (gmap string value) :=
  let m := newCamliMap 1 "permanode" in
  match randomBytes with
  | Err _ => None
  | Ok chars => Some (<["random" := VString (Base64.EncodeToString chars)]> m)
  end.

(** *** Reading the alphabet back *)

Fixpoint indexFrom (c : ascii) (alphabet : string) (i : Z) : Z :=
  match alphabet with
  | EmptyString => -1
  | String a rest => if (a =? c)%char then i else indexFrom c rest (i + 1)
  end.

Definition decodeChar (c : ascii) : Z := indexFrom c Base64.encodeStd 0.

(** The bytes of four characters that are not padding. *)
Definition decodeGroup (c0 c1 c2 c3 : ascii) : list Z :=
  let d0 := decodeChar c0 in
  let d1 := decodeChar c1 in
  let d2 := decodeChar c2 in
  let d3 := decodeChar c3 in
  [d0 * 4 + d1 / 16; (d1 mod 16) * 16 + d2 / 4; (d2 mod 4) * 64 + d3].

Fixpoint Decode (text : list ascii) : list Z :=
  match text with
  | c0 :: c1 :: c2 :: c3 :: rest =>
      if (c2 =? Base64.pad)%char then take 1 (decodeGroup c0 c1 c2 c3)
      else if (c3 =? Base64.pad)%char then take 2 (decodeGroup c0 c1 c2 c3)
      else (decodeGroup c0 c1 c2 c3 ++ Decode rest)%list
  | _ => []
  end.

Definition isByte (z : Z) : Prop := 0 <= z < 256.

(** What the shifts and masks of [Encode] compute on a byte. *)
Definition byteOK (a : Z) : bool :=
  (Base64.shr a 2 =? a / 4) && (Base64.shr a 4 =? a / 16)
  && (Base64.shr a 6 =? a / 64)
  && (Z.land (Base64.shl a 4) 63 =? (a mod 4) * 16)
  && (Z.land (Base64.shl a 2) 63 =? (a mod 16) * 4)
  && (Z.land a 63 =? a mod 64).

(** The two parts of a block do not overlap. *)
Definition lorOK (p : Z) : bool :=
  (Z.lor (p mod 16) ((p / 16) * 16) =? p)
  && (Z.lor (p mod 4) ((p / 4) * 4) =? p).

(** A block is read back from its character, which is not the padding. *)
Definition blockOK (i : Z) : bool :=
  (decodeChar (Base64.encodeChar i) =? i)
  && negb (Base64.encodeChar i =? Base64.pad)%char.

(** ** Numbers in mixed arrays *)

(** How many bytes an element of a mixed array adds to the decoded
    string. *)
Definition emitted (part : Go.iface) : nat :=
  match part with
  | Go.IString s => String.length s
  | Go.IFloat64 _ => 1%nat
  | _ => 0%nat
  end.

(** A conversion the language admits: it answers the byte 0 whenever the
    number does not fit a byte. *)
Definition overflowToZero (f : Go.float64) : ascii := "000"%char.

Definition withSymlinkTarget (target : string) (bytes : list Go.iface)
    (s : Superset) : Superset :=
  mkSuperset (SsBlobRef s) (Version s) (Type_ s) (Signer s) (Sig s)
    (ClaimType s) (ClaimDate s) (Permanode s) (Attribute s) (Value s)
    (FileName s) (FileNameBytes s) target bytes (UnixPermission s)
    (UnixOwnerId s) (UnixOwner s) (UnixGroupId s) (UnixGroup s) (UnixMtime s)
    (UnixCtime s) (UnixAtime s) (Parts s) (Entries s) (Members s).

(** 72 and 105 as binary64 numbers (53-bit mantissa), and 2^32 + 65. *)
Definition float72 : Go.float64 := S754_finite false 5066549580791808 (-46).
Definition float105 : Go.float64 := S754_finite false 7388718138654720 (-46).
Definition floatBig : Go.float64 := S754_finite false 4294967361 0.

(** * Properties *)

(** ** Strings *)

Lemma append_cons (c : ascii) (s t : string) :
  String c s +:+ t = String c (s +:+ t).
Proof. reflexivity. Qed.

Lemma append_nil_l (s : string) : "" +:+ s = s.
Proof. reflexivity. Qed.

Lemma append_nil_r (s : string) : s +:+ "" = s.
Proof.
  induction s as [|c s IH]; [reflexivity | rewrite append_cons; now f_equal].
Qed.

Lemma append_assoc (a b c : string) : (a +:+ b) +:+ c = a +:+ (b +:+ c).
Proof.
  induction a as [|x a IH]; [reflexivity | rewrite !append_cons; now f_equal].
Qed.

(** ** The mixed-array decoder *)

Section MixedArrayFacts.
Variable overflow : Go.float64 -> ascii.

Lemma mixedStep_contribution buf part :
  mixedStep overflow buf part = buf +:+ contribution overflow part.
Proof.
  destruct part; simpl; try reflexivity; now rewrite append_nil_r.
Qed.

Lemma fold_mixedStep parts buf :
  fold_left (mixedStep overflow) parts buf
  = buf +:+ concatStrings (map (contribution overflow) parts).
Proof.
  revert buf. induction parts as [|part parts IH]; intros buf; simpl.
  - now rewrite append_nil_r.
  - rewrite IH, mixedStep_contribution. apply append_assoc.
Qed.

(** The loop over the buffer computes the concatenation of what each
    element contributes. *)
Lemma stringFromMixedArray_concat parts :
  stringFromMixedArray overflow parts
  = concatStrings (map (contribution overflow) parts).
Proof. unfold stringFromMixedArray. now rewrite fold_mixedStep. Qed.

Lemma stringFromMixedArray_cons part parts :
  stringFromMixedArray overflow (part :: parts)
  = contribution overflow part +:+ stringFromMixedArray overflow parts.
Proof. now rewrite !stringFromMixedArray_concat. Qed.

(** An element that is neither a string nor a float64 is skipped. *)
Lemma stringFromMixedArray_skip part parts :
  (forall s, part <> Go.IString s) -> (forall f, part <> Go.IFloat64 f) ->
  stringFromMixedArray overflow (part :: parts)
  = stringFromMixedArray overflow parts.
Proof.
  intros Hs Hf. rewrite stringFromMixedArray_cons.
  destruct part; simpl; try reflexivity.
  - now destruct (Hf f).
  - now destruct (Hs s).
Qed.

(** A number whose integer part is a byte value is emitted as that
    byte. *)
Lemma byte_of_float64_in_range f z :
  Go.float64_trunc f = Some z -> 0 <= z < 256 ->
  Go.byte_of_float64 overflow f = Go.byte_of_Z z.
Proof.
  intros Ht Hz. unfold Go.byte_of_float64. rewrite Ht.
  replace (0 <=? z) with true by (symmetry; apply Z.leb_le; lia).
  replace (z <? 256) with true by (symmetry; apply Z.ltb_lt; lia).
  reflexivity.
Qed.

(** X1: every mixed array is decoded, to the concatenation of what its
    elements contribute: nothing for an element that is neither a string
    nor a float64 (a Go int among them), and for a float64 whose integer
    part is a byte value, that byte. *)
Theorem stringFromMixedArray_decodes parts :
  stringFromMixedArray overflow parts
  = concatStrings (map (contribution overflow) parts)
  /\ (forall part,
      (forall s, part <> Go.IString s) -> (forall f, part <> Go.IFloat64 f) ->
      contribution overflow part = "")
  /\ (forall f z, Go.float64_trunc f = Some z -> 0 <= z < 256 ->
      contribution overflow (Go.IFloat64 f)
      = String (Go.byte_of_Z (z mod 256)) "")
  /\ stringFromMixedArray overflow
       [Go.IString "H"; Go.IFloat64 (S754_finite false 105 0); Go.INil;
        Go.IInt 72; Go.IBool true; Go.IFloat64 (S754_finite false 67 (-1))]
     = "Hi!".
Proof.
  split_and!.
  - apply stringFromMixedArray_concat.
  - intros part Hs Hf. destruct part; try reflexivity.
    + now destruct (Hf f).
    + now destruct (Hs s).
  - intros f z Ht Hz. simpl. rewrite (byte_of_float64_in_range f z Ht Hz).
    now rewrite Z.mod_small.
  - reflexivity.
Qed.

Lemma contribution_float64 (num : Go.float64) :
  exists b : ascii,
    contribution overflow (Go.IFloat64 num) = String b ""
    /\ forall z, Go.float64_trunc num = Some z -> 0 <= z < 256 ->
         b = Go.byte_of_Z z.
Proof.
  exists (Go.byte_of_float64 overflow num). split; [reflexivity|].
  intros z Ht Hz. now apply byte_of_float64_in_range.
Qed.

Lemma contribution_other (part : Go.iface) :
  (forall s, part <> Go.IString s) -> (forall f, part <> Go.IFloat64 f) ->
  contribution overflow part = "".
Proof.
  intros Hs Hf. destruct part; try reflexivity.
  - now destruct (Hf f).
  - now destruct (Hs s).
Qed.

(** C4, as the code has it: FileNameString and SymlinkTargetString
    return the plain string field when it is not empty, and otherwise the
    bytes of the parallel mixed array, to which a string element
    contributes its bytes, a float64 element exactly one byte (the
    integer part of the number when that is a byte value), and an element
    of any other type, a Go int included, nothing; FileName="" with
    FileNameBytes=["H","i"] gives "Hi", as do [72.0,105.0] and
    ["H",105.0], and FileName="X" gives "X". *)
Theorem FileNameString_spec (s : Superset) :
  (FileName s <> "" -> FileNameString overflow s = FileName s)
  /\ (FileName s = "" ->
      FileNameString overflow s
      = concatStrings (map (contribution overflow) (FileNameBytes s)))
  /\ (SymlinkTarget s <> "" ->
      SymlinkTargetString overflow s = SymlinkTarget s)
  /\ (SymlinkTarget s = "" ->
      SymlinkTargetString overflow s
      = concatStrings (map (contribution overflow) (SymlinkTargetBytes s)))
  /\ (forall str, contribution overflow (Go.IString str) = str)
  /\ (forall num, String.length (contribution overflow (Go.IFloat64 num)) = 1%nat)
  /\ FileNameString overflow
       (withFileName "" [Go.IString "H"; Go.IString "i"] s) = "Hi"
  /\ FileNameString overflow
       (withFileName "X" [Go.IString "H"; Go.IString "i"] s) = "X"
  /\ (forall num, exists b : ascii,
        contribution overflow (Go.IFloat64 num) = String b ""
        /\ forall z, Go.float64_trunc num = Some z -> 0 <= z < 256 ->
             b = ascii_of_N (Z.to_N z))
  /\ (forall part,
        (forall str, part <> Go.IString str) ->
        (forall num, part <> Go.IFloat64 num) ->
        contribution overflow part = "")
  /\ FileNameString overflow
       (withFileName "" [Go.IFloat64 float72; Go.IFloat64 float105] s) = "Hi"
  /\ FileNameString overflow
       (withFileName "" [Go.IString "H"; Go.IFloat64 float105] s) = "Hi"
  /\ SymlinkTargetString overflow
       (withSymlinkTarget "" [Go.IFloat64 float72; Go.IString "i"] s) = "Hi"
  /\ FileNameString overflow
       (withFileName "" [Go.IInt 72; Go.IString "i"; Go.INil; Go.IInt 105] s)
     = "i".
Proof.
  unfold FileNameString, SymlinkTargetString.
  split_and!; try reflexivity.
  - intros H. now destruct (decide (FileName s <> "")).
  - intros H. destruct (decide (FileName s <> "")) as [Hne|_];
      [now destruct Hne | apply stringFromMixedArray_concat].
  - intros H. now destruct (decide (SymlinkTarget s <> "")).
  - intros H. destruct (decide (SymlinkTarget s <> "")) as [Hne|_];
      [now destruct Hne | apply stringFromMixedArray_concat].
  - apply contribution_float64.
  - apply contribution_other.
Qed.

(** C10, as the code has it: the decoder returns for every array; the
    decoded string has the bytes of the string elements and one byte for
    each float64 element, in the order of the array, and nothing for an
    element of any other type, a Go int included; the byte of a float64
    is the integer part of the number when that is a byte value (where it
    is also the integer part modulo 256). *)
Theorem stringFromMixedArray_never_rejects (parts : list Go.iface) :
  String.length (stringFromMixedArray overflow parts)
  = foldr (fun part n => (emitted part + n)%nat) 0%nat parts
  /\ stringFromMixedArray overflow [] = ""
  /\ (forall str rest,
        stringFromMixedArray overflow (Go.IString str :: rest)
        = str +:+ stringFromMixedArray overflow rest)
  /\ (forall num rest, exists b : ascii,
        stringFromMixedArray overflow (Go.IFloat64 num :: rest)
        = String b (stringFromMixedArray overflow rest)
        /\ forall z, Go.float64_trunc num = Some z -> 0 <= z < 256 ->
             b = ascii_of_N (Z.to_N (z mod 256)))
  /\ (forall part rest,
        (forall str, part <> Go.IString str) ->
        (forall num, part <> Go.IFloat64 num) ->
        stringFromMixedArray overflow (part :: rest)
        = stringFromMixedArray overflow rest)
  /\ stringFromMixedArray overflow
       [Go.IFloat64 float72; Go.IObject []; Go.IFloat64 float105;
        Go.IArray [Go.IString "!"]; Go.IBool false] = "Hi".
Proof.
  split_and!.
  - rewrite stringFromMixedArray_concat.
    induction parts as [|part parts IH]; [reflexivity|].
    simpl. rewrite <- IH. clear IH.
    generalize (concatStrings (map (contribution overflow) parts)) as tl.
    intros tl. destruct part; simpl; try reflexivity.
    induction s as [|c s IHs]; [reflexivity|].
    rewrite append_cons. simpl. now rewrite IHs.
  - reflexivity.
  - intros str rest. now rewrite stringFromMixedArray_cons.
  - intros num rest. destruct (contribution_float64 num) as (b & Hb & Hz).
    exists b. split.
    + now rewrite stringFromMixedArray_cons, Hb.
    + intros z Ht Hr. rewrite Z.mod_small by exact Hr. now apply Hz.
  - intros part rest Hs Hf.
    now rewrite stringFromMixedArray_cons, contribution_other, append_nil_l.
  - reflexivity.
Qed.
End MixedArrayFacts.

(** C4 as stated fails on numbers that are not float64: with an empty
    FileName and the Go ints 72 and 105 as FileNameBytes, FileNameString
    returns the empty string, no byte for either number. *)
Lemma FileNameString_int_elements :
  FileName (withFileName "" [Go.IInt 72; Go.IInt 105] zeroSuperset) = ""
  /\ FileNameString overflowToZero
       (withFileName "" [Go.IInt 72; Go.IInt 105] zeroSuperset) = ""
  /\ String.length
       (FileNameString overflowToZero
          (withFileName "" [Go.IInt 72; Go.IInt 105] zeroSuperset)) = 0%nat
  /\ FileNameString overflowToZero
       (withFileName "" [Go.IInt 72; Go.IInt 105] zeroSuperset) <> "Hi".
Proof. split_and!; [reflexivity | reflexivity | reflexivity | discriminate]. Qed.

(** C10 as stated fails: the byte of a number that does not fit a byte
    is what the conversion of the platform gives, and a conversion that
    answers 0 there, as the language admits, makes of 2^32 + 65 the byte
    0, not 65, its integer part modulo 256; and the Go int 65 is a number
    for which no byte is emitted. *)
Lemma stringFromMixedArray_not_modulo_256 :
  Go.float64_trunc floatBig = Some 4294967361
  /\ 4294967361 mod 256 = 65
  /\ stringFromMixedArray overflowToZero [Go.IFloat64 floatBig]
     = String "000" ""
  /\ stringFromMixedArray overflowToZero [Go.IFloat64 floatBig]
     <> String (Go.byte_of_Z (4294967361 mod 256)) ""
  /\ stringFromMixedArray overflowToZero [Go.IInt 65] = ""
  /\ stringFromMixedArray overflowToZero [Go.IInt 65]
     <> String (Go.byte_of_Z (65 mod 256)) "".
Proof.
  split_and!; try reflexivity; vm_compute; discriminate.
Qed.

(** ** Directory entries *)

Section DirEntryFacts.
Context {SeekFetcher FileReader DirReader : Type}.
Abbreviation entry := (dirEntry SeekFetcher FileReader DirReader).

Lemma validEntryType_iff ty :
  validEntryType ty = true
  <-> ty = "file" \/ ty = "directory" \/ ty = "symlink".
Proof.
  unfold validEntryType. rewrite !orb_true_iff, !bool_decide_eq_true. tauto.
Qed.

(** C6: NewDirectoryEntry returns an error exactly when the Superset is
    nil, its BlobRef is nil, or its Type is not "file", "directory" or
    "symlink", the error being the invalid-camliType one when only the
    Type is at fault; Type "audio" fails, and Type "file" with a nil
    BlobRef fails. *)
Theorem NewDirectoryEntry_error_iff (f : SeekFetcher) (ssp : option Superset) :
  (is_err (NewDirectoryEntry FileReader DirReader f ssp)
   <-> ssp = None
       \/ exists s, ssp = Some s
            /\ (SsBlobRef s = None
                \/ ~ (Type_ s = "file" \/ Type_ s = "directory"
                      \/ Type_ s = "symlink")))
  /\ (forall s b, ssp = Some s -> SsBlobRef s = Some b ->
      ~ (Type_ s = "file" \/ Type_ s = "directory" \/ Type_ s = "symlink") ->
      NewDirectoryEntry FileReader DirReader f ssp
      = Err (ErrInvalidCamliType (Type_ s)))
  /\ (forall s b,
      NewDirectoryEntry FileReader DirReader f
        (Some (withType (Some b) "audio" s))
      = Err (ErrInvalidCamliType "audio"))
  /\ (forall s,
      is_err (NewDirectoryEntry FileReader DirReader f
                (Some (withType None "file" s)))).
Proof.
  repeat split.
  - destruct ssp as [s|]; simpl; [|now left].
    intros He. right. exists s. split; [reflexivity|].
    destruct (SsBlobRef s); [|now left].
    right. rewrite <- validEntryType_iff.
    destruct (validEntryType (Type_ s)); [destruct He | discriminate].
  - intros [->|(s & -> & [Hb|Ht])]; simpl; [exact I | now rewrite Hb |].
    destruct (SsBlobRef s); [|exact I].
    rewrite <- validEntryType_iff in Ht.
    destruct (validEntryType (Type_ s)); [now destruct Ht | exact I].
  - intros s b -> Hb Ht. simpl. rewrite Hb.
    rewrite <- validEntryType_iff in Ht.
    destruct (validEntryType (Type_ s)); [now destruct Ht | reflexivity].
Qed.

Lemma File_cacheInv nfr (de : entry) :
  cacheInv de -> cacheInv (fst (File nfr de)).
Proof.
  intros Hinv. unfold File.
  destruct (fr de) as [r|] eqn:Hfr; simpl; [exact Hinv|].
  destruct (decide (Type_ (ss de) <> "file")) as [Hne|He]; simpl;
    [exact Hinv|].
  destruct (nfr (fetcher de) (SsBlobRef (ss de))); simpl; [|exact Hinv].
  destruct Hinv as [_ Hd]. split; simpl; [|exact Hd].
  intros _. destruct (decide (Type_ (ss de) = "file")) as [E|N];
    [exact E | now destruct He].
Qed.

Lemma Directory_cacheInv ndr (de : entry) :
  cacheInv de -> cacheInv (fst (Directory ndr de)).
Proof.
  intros Hinv. unfold Directory.
  destruct (dr de) as [r|] eqn:Hdr; simpl; [exact Hinv|].
  destruct (decide (Type_ (ss de) <> "directory")) as [Hne|He]; simpl;
    [exact Hinv|].
  destruct (ndr (fetcher de) (SsBlobRef (ss de))); simpl; [|exact Hinv].
  destruct Hinv as [Hf _]. split; simpl; [exact Hf|].
  intros _. destruct (decide (Type_ (ss de) = "directory")) as [E|N];
    [exact E | now destruct He].
Qed.

Lemma reachable_cacheInv (de : entry) : reachable de -> cacheInv de.
Proof.
  induction 1 as [f s de Hnew | nfr de _ IH | ndr de _ IH].
  - unfold NewDirectoryEntry in Hnew. destruct (SsBlobRef s); [|discriminate].
    destruct (validEntryType (Type_ s)); [|discriminate].
    injection Hnew as <-. split; simpl; intros [? [=]].
  - now apply File_cacheInv.
  - now apply Directory_cacheInv.
Qed.

(** Later calls keep the type and a cached file reader. *)
Lemma later_keeps (de de' : entry) r :
  later de de' -> fr de = Some r ->
  fr de' = Some r /\ ss de' = ss de.
Proof.
  intros Hl Hfr. induction Hl as [de | nfr de de' _ IH | ndr de de' _ IH].
  - now split.
  - destruct (IH Hfr) as [Hr Hs]. unfold File. rewrite Hr. now split.
  - destruct (IH Hfr) as [Hr Hs]. unfold Directory.
    destruct (dr de'); simpl; [now split|].
    destruct (decide (Type_ (ss de') <> "directory")); simpl; [now split|].
    destruct (ndr (fetcher de') (SsBlobRef (ss de'))); simpl; now split.
Qed.

(** C7: on an entry whose CamliType is not "file", File fails with the
    type-mismatch error and leaves the entry as it was; on a successful
    call the reader is cached in the entry, and every later call of File,
    whatever the reader constructor would answer then, returns that same
    reader. *)
Theorem File_mismatch_and_cache (de : entry) (H : reachable de) :
  (CamliType de <> "file" ->
   forall nfr,
     File nfr de = (de, Err (ErrNotCamliType (CamliType de) "file")))
  /\ (forall nfr r de1, File nfr de = (de1, Ok r) ->
      fr de1 = Some r
      /\ forall de2 nfr', later de1 de2 ->
           File nfr' de2 = (de2, Ok r)).
Proof.
  apply reachable_cacheInv in H. destruct H as [Hf _]. split.
  - intros Hne nfr. unfold File, CamliType in *.
    destruct (fr de) as [r|].
    + destruct Hne. apply Hf. now exists r.
    + now destruct (decide (Type_ (ss de) <> "file")).
  - intros nfr r de1 HF.
    assert (fr de1 = Some r) as Hr.
    { unfold File in HF. destruct (fr de) as [r0|] eqn:Hfr.
      - injection HF as <- <-. exact Hfr.
      - destruct (decide (Type_ (ss de) <> "file")); [discriminate|].
        destruct (nfr (fetcher de) (SsBlobRef (ss de))); [|discriminate].
        injection HF as <- <-. reflexivity. }
    split; [exact Hr|].
    intros de2 nfr' Hl. destruct (later_keeps _ _ _ Hl Hr) as [Hr2 _].
    unfold File. now rewrite Hr2.
Qed.
End DirEntryFacts.

(** ** The order of the keys *)

#[global] Instance keyLe_trans : Transitive keyLe.
Proof. intros a b c. unfold keyLe. apply transitivity. Qed.

#[global] Instance keyLe_total : Total keyLe.
Proof. intros a b. unfold keyLe. apply total, _. Qed.

Lemma sortedEntries_perm (m : gmap string value) :
  sortedEntries m ≡ₚ map_to_list m.
Proof. apply merge_sort_Permutation. Qed.





Lemma string_drop_renderObject enc members :
  string_drop 2 (renderObject enc members)
  = match members with
    | [] => ""
    | _ => join ("," +:+ newline)
             (map (fun kt => memberLine enc kt.1 kt.2) members)
           +:+ newline +:+ "}"
    end.
Proof. destruct members; reflexivity. Qed.

(** ** MapToCamliJSON *)

Lemma MapToCamliJSON_unfold (enc : Encoder) (m : gmap string value) :
  MapToCamliJSON enc m
  = match m !! "camliVersion" with
    | None => (m, Err ErrNoCamliVersion)
    | Some version =>
        match marshalEntries enc (delete "camliVersion" m) with
        | None => (delete "camliVersion" m, Err ErrMarshal)
        | Some members =>
            (<["camliVersion" := version]> (delete "camliVersion" m),
             Ok (camliText enc (fmtV enc version) members))
        end
    end.
Proof.
  unfold MapToCamliJSON, MarshalIndent.
  destruct (m !! "camliVersion") as [version|]; [|reflexivity].
  destruct (marshalEntries enc (delete "camliVersion" m)) as [members|];
    [|reflexivity].
  change (renderObject enc <$> Some members)
    with (Some (renderObject enc members)).
  cbv iota beta zeta. unfold camliText.
  now rewrite string_drop_renderObject.
Qed.

(** C5: MapToCamliJSON fails with the no-camliVersion error exactly when
    the map has no camliVersion key, and then leaves the map as it was. *)
Theorem MapToCamliJSON_no_version (enc : Encoder) (m : gmap string value) :
  ((MapToCamliJSON enc m).2 = Err ErrNoCamliVersion
   <-> m !! "camliVersion" = None)
  /\ ((MapToCamliJSON enc m).2 = Err ErrNoCamliVersion ->
      (MapToCamliJSON enc m).1 = m).
Proof.
  unfold MapToCamliJSON.
  destruct (m !! "camliVersion") as [version|] eqn:Hv; simpl.
  - destruct (MarshalIndent enc (delete "camliVersion" m)); simpl;
      (split; [split|]; discriminate).
  - now split.
Qed.

(** A successful call gives the map back with its camliVersion. *)
Lemma MapToCamliJSON_restores (enc : Encoder) (m m' : gmap string value) out :
  MapToCamliJSON enc m = (m', Ok out) -> m' = m.
Proof.
  unfold MapToCamliJSON.
  destruct (m !! "camliVersion") as [version|] eqn:Hv; [|discriminate].
  destruct (MarshalIndent enc (delete "camliVersion" m)); [|discriminate].
  intros [= <- _]. now apply insert_delete_id.
Qed.

(** X3: when encoding/json refuses a value, the call returns with the
    camliVersion key still deleted. *)
Lemma MapToCamliJSON_marshal_error (enc : Encoder) (m : gmap string value) :
  is_Some (m !! "camliVersion") ->
  MarshalIndent enc (delete "camliVersion" m) = None ->
  MapToCamliJSON enc m = (delete "camliVersion" m, Err ErrMarshal).
Proof.
  intros [version Hv] Hm. unfold MapToCamliJSON. now rewrite Hv, Hm.
Qed.

Lemma MapToCamliJSON_marshal_error_witness :
  MapToCamliJSON plainEncoder (<["extra" := VOther "chan int"]> NewBytes)
  = (delete "camliVersion" (<["extra" := VOther "chan int"]> NewBytes), Err ErrMarshal)
  /\ delete "camliVersion" (<["extra" := VOther "chan int"]> NewBytes) !! "camliVersion"
     = None.
Proof.
  split; [|reflexivity].
  apply MapToCamliJSON_marshal_error;
    [eexists; reflexivity | vm_compute; reflexivity].
Defined.







(** ** PopulateParts *)

Lemma wrap_int64_add (a b : Z) :
  Go.wrap_int64 (a + Go.wrap_int64 b) = Go.wrap_int64 (a + b).
Proof.
  unfold Go.wrap_int64. f_equal.
  replace (a + ((b + 2 ^ 63) mod 2 ^ 64 - 2 ^ 63) + 2 ^ 63)
    with (a + (b + 2 ^ 63) mod 2 ^ 64) by ring.
  rewrite Zplus_mod_idemp_r. f_equal. ring.
Qed.

Lemma wrap_int64_add_l (a b : Z) :
  Go.wrap_int64 (Go.wrap_int64 a + b) = Go.wrap_int64 (a + b).
Proof. rewrite Z.add_comm, wrap_int64_add. f_equal. ring. Qed.

Lemma wrap_int64_id (a : Z) : Go.is_int64 a -> Go.wrap_int64 a = a.
Proof.
  unfold Go.is_int64, Go.wrap_int64. intros H.
  rewrite Z.mod_small; lia.
Qed.

Lemma partMap_err (part : BytesPart) e :
  partMap part = Err e -> bothRefs part /\ e = ErrBothRefs.
Proof.
  unfold partMap, withRef, bothRefs.
  destruct (PartBlobRef part), (BytesRef part); try discriminate.
  intros [= <-]. split; [split; eexists; reflexivity | reflexivity].
Qed.

Lemma partMap_both (part : BytesPart) :
  bothRefs part -> partMap part = Err ErrBothRefs.
Proof.
  unfold partMap, withRef. intros [[b1 ->] [b2 ->]]. reflexivity.
Qed.

Lemma partMap_ok (part : BytesPart) :
  ~ bothRefs part -> partMap part = Ok (partMapOf part).
Proof.
  unfold partMap, partMapOf, withRef, bothRefs. intros H.
  destruct (PartBlobRef part), (BytesRef part); try reflexivity.
  destruct H. split; eexists; reflexivity.
Qed.

(** The loop stops with the error at the first part with both
    references. *)
Lemma partsLoop_both idx parts sumSize mparts :
  Exists bothRefs parts ->
  partsLoop idx parts sumSize mparts = Err ErrBothRefs.
Proof.
  intros H. revert idx sumSize mparts.
  induction parts as [|part parts IH]; intros idx sumSize mparts;
    [inversion H|].
  simpl. destruct (decide (bothRefs part)) as [Hb|Hb].
  - now rewrite partMap_both.
  - rewrite partMap_ok by exact Hb. apply IH.
    apply Exists_cons in H as [H|H]; [now destruct Hb | exact H].
Qed.

(** Without such a part the loop fills the maps in order and adds up the
    sizes in int64 arithmetic. *)
Lemma partsLoop_ok parts (pre : list (gmap string value)) sumSize :
  ~ Exists bothRefs parts ->
  partsLoop (length pre) parts sumSize (pre ++ replicate (length parts) ∅)%list
  = Ok (Go.wrap_int64 (sumSize + totalSize parts),
        (pre ++ map partMapOf parts)%list)
    \/ parts = [] /\
       partsLoop (length pre) parts sumSize (pre ++ replicate (length parts) ∅)%list
       = Ok (sumSize, pre).
Proof.
  revert pre sumSize.
  induction parts as [|part parts IH]; intros pre sumSize H.
  - right. simpl. now rewrite app_nil_r.
  - left. simpl.
    rewrite partMap_ok by (intros Hb; apply H; now left).
    assert (~ Exists bothRefs parts) as H' by (intros Hb; apply H; now right).
    rewrite insert_app_r_alt by lia. rewrite Nat.sub_diag. simpl.
    specialize (IH (pre ++ [partMapOf part])%list
                   (Go.wrap_int64 (sumSize + Go.wrap_int64 (Size part))) H').
    rewrite length_app, Nat.add_1_r in IH. rewrite <- app_assoc in IH.
    simpl in IH. destruct IH as [-> | [-> ->]].
    + rewrite wrap_int64_add, wrap_int64_add_l. simpl.
      f_equal. f_equal; [f_equal; ring | now rewrite <- app_assoc].
    + simpl. rewrite wrap_int64_add.
      replace (sumSize + (Size part + 0)) with (sumSize + Size part) by ring.
      reflexivity.
Qed.

Lemma partsLoop_run parts sumSize0 :
  Go.is_int64 sumSize0 ->
  ~ Exists bothRefs parts ->
  partsLoop 0 parts sumSize0 (replicate (length parts) ∅)
  = Ok (Go.wrap_int64 (sumSize0 + totalSize parts), map partMapOf parts).
Proof.
  intros H0 H. destruct (partsLoop_ok parts [] sumSize0 H) as [E|[-> E]].
  - exact E.
  - simpl. rewrite Z.add_0_r, wrap_int64_id by exact H0. reflexivity.
Qed.

Lemma PopulateParts_unfold m size parts :
  PopulateParts m size parts
  = if decide (Exists bothRefs parts) then (m, Returned (Some ErrBothRefs))
    else
      let sumSize := Go.wrap_int64 (totalSize parts) in
      if decide (sumSize <> size) then
        (m, Returned (Some (ErrSizeMismatch size sumSize)))
      else
        match m with
        | None => (m, Panicked)
        | Some g =>
            (Some (<["parts" := VMaps (map partMapOf parts)]> g),
             Returned None)
        end.
Proof.
  unfold PopulateParts. destruct (decide (Exists bothRefs parts)) as [H|H].
  - now rewrite partsLoop_both.
  - rewrite partsLoop_run; [reflexivity | unfold Go.is_int64; lia | exact H].
Qed.

Lemma partMapOf_entry (part : BytesPart) :
  ~ bothRefs part -> partEntry part (partMapOf part).
Proof.
  unfold bothRefs, partEntry, partMapOf, withOffset. intros H.
  destruct (PartBlobRef part) as [b1|], (BytesRef part) as [b2|];
    [destruct H; split; eexists; reflexivity|..];
    destruct (decide (Offset part <> 0));
    (split_and!; [reflexivity .. | intros [[? [=]] [? [=]]] | reflexivity
                  | intros k [v Hk];
                    repeat (apply lookup_insert_Some in Hk
                              as [[<- _]|[_ Hk]]; [tauto|]);
                    now rewrite lookup_empty in Hk]).
Qed.

Lemma totalSize_nonneg (parts : list BytesPart) :
  Forall (fun p => 0 <= Size p) parts -> 0 <= totalSize parts.
Proof.
  induction 1 as [|p parts Hp _ IH]; simpl; lia.
Qed.

(** C2, as the code has it: a part with both references makes
    PopulateParts fail with the both-references error whatever the sizes;
    when no part has both and the sum of the sizes (the sizes summing to
    less than 2^63) differs from the declared size, it fails with the
    size-mismatch error; and a call that returns an error leaves the map
    as it was. *)
Theorem PopulateParts_failures (m : option (gmap string value)) (size : Z)
    (parts : list BytesPart) :
  (Exists bothRefs parts ->
   PopulateParts m size parts = (m, Returned (Some ErrBothRefs)))
  /\ (~ Exists bothRefs parts ->
      Forall (fun p => 0 <= Size p) parts -> totalSize parts < 2 ^ 63 ->
      totalSize parts <> size ->
      PopulateParts m size parts
      = (m, Returned (Some (ErrSizeMismatch size (totalSize parts)))))
  /\ (forall e, (PopulateParts m size parts).2 = Returned (Some e) ->
      (PopulateParts m size parts).1 = m).
Proof.
  rewrite PopulateParts_unfold. split_and!.
  - intros H. now destruct (decide (Exists bothRefs parts)).
  - intros H Hpos Hfit Hne.
    destruct (decide (Exists bothRefs parts)); [contradiction|].
    apply totalSize_nonneg in Hpos.
    cbv zeta. rewrite wrap_int64_id by (unfold Go.is_int64; lia).
    now destruct (decide (totalSize parts <> size)).
  - intros e. destruct (decide (Exists bothRefs parts)); [reflexivity|].
    cbv zeta. destruct (decide (Go.wrap_int64 (totalSize parts) <> size));
      [reflexivity|].
    destruct m; simpl; [discriminate | reflexivity].
Qed.

(** C3, as the code has it: when PopulateParts succeeds, the map gets
    under "parts" one map per part, in order, holding the size, the
    blobRef when the part has a BlobRef and the bytesRef when it has a
    BytesRef (never both, and neither for a part without reference), the
    offset exactly when it is not zero, and no other key. *)
Theorem PopulateParts_success (m m' : option (gmap string value)) (size : Z)
    (parts : list BytesPart)
    (H : PopulateParts m size parts = (m', Returned None)) :
  exists g mparts,
    m = Some g
    /\ m' = Some (<["parts" := VMaps mparts]> g)
    /\ Forall2 partEntry parts mparts.
Proof.
  rewrite PopulateParts_unfold in H.
  destruct (decide (Exists bothRefs parts)) as [|Hno]; [discriminate|].
  cbv zeta in H.
  destruct (decide (Go.wrap_int64 (totalSize parts) <> size)); [discriminate|].
  destruct m as [g|]; [|discriminate]. injection H as <-.
  exists g, (map partMapOf parts). split_and!; try reflexivity.
  apply Forall2_fmap_r, Forall_Forall2_diag, Forall_forall.
  intros part Hin. apply partMapOf_entry.
  intros Hb. apply Hno, Exists_exists. now exists part.
Qed.

Lemma PopulateParts_success_witness :
  PopulateParts (Some ∅) 50 plainParts
  = (Some (<["parts" := VMaps (map partMapOf plainParts)]> ∅), Returned None)
  /\ exists g mparts,
       Some (∅ : gmap string value) = Some g
       /\ Some (<["parts" := VMaps (map partMapOf plainParts)]> ∅)
          = Some (<["parts" := VMaps mparts]> g)
       /\ Forall2 partEntry plainParts mparts.
Proof.
  assert (PopulateParts (Some ∅) 50 plainParts
          = (Some (<["parts" := VMaps (map partMapOf plainParts)]> ∅),
             Returned None)) as E.
  { rewrite PopulateParts_unfold. reflexivity. }
  split; [exact E|].
  exact (PopulateParts_success _ _ _ _ E).
Defined.

(** C3 as stated fails: the two parts without reference are accepted,
    and their maps hold neither blobRef nor bytesRef. *)
Lemma PopulateParts_no_reference :
  PopulateParts (Some ∅) 50 plainParts
  = (Some (<["parts" := VMaps [ {["size" := VUint64 30]};
                                {["size" := VUint64 20]} ]]> ∅),
     Returned None)
  /\ ({["size" := VUint64 30]} : gmap string value) !! "blobRef" = None
  /\ ({["size" := VUint64 30]} : gmap string value) !! "bytesRef" = None.
Proof.
  split_and!; [rewrite PopulateParts_unfold|..]; reflexivity.
Qed.

(** C2 as stated fails: with a part that has both references and a
    sum that differs from the declared size, the error is the
    both-references one, not the size mismatch. *)
Lemma PopulateParts_both_before_size :
  totalSize [mkBytesPart 1 (Some someRef) (Some otherRef) 0] = 1
  /\ 1 <> 0
  /\ PopulateParts (Some ∅) 0 [mkBytesPart 1 (Some someRef) (Some otherRef) 0]
     = (Some ∅, Returned (Some ErrBothRefs))
  /\ Returned (Some ErrBothRefs) <> Returned (Some (ErrSizeMismatch 0 1)).
Proof. split_and!; [reflexivity | lia | reflexivity | discriminate]. Qed.

(** X2: the sum is taken in int64: two parts of 2^63 bytes pass for a
    declared size of 0. *)
Lemma PopulateParts_sum_wraps :
  PopulateParts (Some ∅) 0
    [mkBytesPart (2 ^ 63) None None 0; mkBytesPart (2 ^ 63) None None 0]
  = (Some (<["parts" := VMaps [ {["size" := VUint64 (2 ^ 63)]};
                                {["size" := VUint64 (2 ^ 63)]} ]]> ∅),
     Returned None).
Proof. rewrite PopulateParts_unfold. reflexivity. Qed.

Lemma PopulateParts_failures_witness :
  PopulateParts (Some ∅) 50 [mkBytesPart 100 (Some someRef) None 0]
  = (Some ∅, Returned (Some (ErrSizeMismatch 50 100)))
  /\ PopulateParts (Some ∅) 100
       [mkBytesPart 100 (Some someRef) (Some otherRef) 7]
     = (Some ∅, Returned (Some ErrBothRefs)).
Proof.
  split.
  - apply (proj1 (proj2 (PopulateParts_failures (Some ∅) 50
                           [mkBytesPart 100 (Some someRef) None 0]))).
    + intros H. apply Exists_cons in H as [[_ [? [=]]]|H]; inversion H.
    + repeat constructor. simpl. lia.
    + simpl. lia.
    + simpl. lia.
  - apply (proj1 (PopulateParts_failures (Some ∅) 100
                    [mkBytesPart 100 (Some someRef) (Some otherRef) 7])).
    left. split; eexists; reflexivity.
Defined.

(** ** Claims *)

(** C9: the map built by NewDelAttributeClaim has claimType
    "del-attribute" and the given attribute, and has no "value" key. *)
Theorem NewDelAttributeClaim_no_value (now : GoTime.Time) (permaNode : BlobRef)
    (attr : string) :
  NewDelAttributeClaim now permaNode attr !! "claimType"
  = Some (VString "del-attribute")
  /\ NewDelAttributeClaim now permaNode attr !! "attribute"
     = Some (VString attr)
  /\ NewDelAttributeClaim now permaNode attr !! "value" = None
  /\ "value" ∉ dom (NewDelAttributeClaim now permaNode attr).
Proof.
  unfold NewDelAttributeClaim, newAttrChangeClaim, NewClaim, newCamliMap.
  cbv zeta. split_and!.
  - rewrite lookup_delete_ne by discriminate.
    do 2 (rewrite lookup_insert_ne by discriminate).
    rewrite lookup_insert_ne by discriminate.
    now rewrite lookup_insert_eq.
  - rewrite lookup_delete_ne by discriminate.
    rewrite lookup_insert_ne by discriminate.
    now rewrite lookup_insert_eq.
  - apply lookup_delete_eq.
  - rewrite not_elem_of_dom. apply lookup_delete_eq.
Qed.

(** The set and add claims do carry the value, the empty string
    included. *)
Lemma NewSetAttributeClaim_value (now : GoTime.Time) (permaNode : BlobRef)
    (attr val : string) :
  NewSetAttributeClaim now permaNode attr val !! "value" = Some (VString val).
Proof. apply lookup_insert_eq. Qed.

(** ** Examples of MapToCamliJSON *)



(** ** Examples of directory entries *)

Lemma File_mismatch_and_cache_witness :
  reachable fileEntry /\ reachable dirOnlyEntry
  /\ File (fun _ _ => Ok 7%nat) dirOnlyEntry
     = (dirOnlyEntry, Err (ErrNotCamliType "directory" "file"))
  /\ File (fun _ _ => Ok 8%nat)
       (fst (File (fun _ _ => Ok 7%nat) fileEntry))
     = (fst (File (fun _ _ => Ok 7%nat) fileEntry), Ok 7%nat).
Proof.
  assert (reachable fileEntry) as Hf
    by (apply (reach_new unit nat nat tt (withType (Some someRef) "file" zeroSuperset));
        reflexivity).
  assert (reachable dirOnlyEntry) as Hd
    by (apply (reach_new unit nat nat tt
                 (withType (Some someRef) "directory" zeroSuperset));
        reflexivity).
  split_and!; [exact Hf | exact Hd | |].
  - apply (proj1 (File_mismatch_and_cache dirOnlyEntry Hd)). discriminate.
  - apply (proj2 (File_mismatch_and_cache fileEntry Hf)
             (fun _ _ => Ok 7%nat) 7%nat
             (fst (File (fun _ _ => Ok 7%nat) fileEntry)) eq_refl).
    apply later_refl.
Defined.

(** ** Timestamps *)

Module TimeFacts.
Import GoTime TimeModel.

Lemma checkFrom_sound (f : Z -> bool) (p : positive) (lo : Z) :
  checkFrom f p lo = true -> forall z, lo <= z < lo + Z.pos p -> f z = true.
Proof.
  revert lo. induction p as [q IH|q IH|]; intros lo H z Hz; simpl in H.
  - apply andb_true_iff in H as [H H2]. apply andb_true_iff in H as [H0 H1].
    destruct (Z.eq_dec z lo) as [->|Hne]; [exact H0|].
    destruct (Z_lt_le_dec z (lo + 1 + Z.pos q)).
    + apply (IH _ H1). lia.
    + apply (IH _ H2). lia.
  - apply andb_true_iff in H as [H1 H2].
    destruct (Z_lt_le_dec z (lo + Z.pos q)).
    + apply (IH _ H1). lia.
    + apply (IH _ H2). lia.
  - replace z with lo by lia. exact H.
Qed.

Lemma absDate_cycle (n d r : Z) :
  0 <= d < daysPer400Years -> 0 <= r < secondsPerDay ->
  absDate ((daysPer400Years * n + d) * secondsPerDay + r)
  = cycleDate (400 * n + absoluteZeroYear) d.
Proof.
  intros Hd Hr. unfold absDate, cycleDate.
  replace (((daysPer400Years * n + d) * secondsPerDay + r) / secondsPerDay)
    with (daysPer400Years * n + d).
  2:{ unfold secondsPerDay, secondsPerHour in *.
      apply Z.div_unique with r; lia. }
  replace ((daysPer400Years * n + d) / daysPer400Years) with n.
  2:{ unfold daysPer400Years in *. apply Z.div_unique with d; lia. }
  replace (daysPer400Years * n + d - daysPer400Years * n) with d by ring.
  cbv zeta.
  set (n1 := d / daysPer100Years - Z.shiftr (d / daysPer100Years) 2).
  set (d1 := d - daysPer100Years * n1).
  set (n2 := d1 / daysPer4Years).
  set (d2 := d1 - daysPer4Years * n2).
  set (n3 := d2 / 365 - Z.shiftr (d2 / 365) 2).
  replace (400 * n + 100 * n1 + 4 * n2 + n3 + absoluteZeroYear)
    with (400 * n + absoluteZeroYear + (100 * n1 + 4 * n2 + n3)) by ring.
  reflexivity.
Qed.

Lemma Date_cycle (n y year month day hour min second nanos : Z) :
  0 <= y < 400 -> year - absoluteZeroYear = 400 * n + y ->
  sec (Date year month day hour min second nanos)
  = Go.wrap_int64
      ((daysPer400Years * n + cycleDay y year month day) * secondsPerDay
       + (hour * secondsPerHour + min * secondsPerMinute + second)
       + absoluteToInternal).
Proof.
  intros Hy Hyear. unfold Date, cycleDay. rewrite Hyear. cbv zeta. simpl sec.
  replace ((400 * n + y) / 400) with n
    by (apply Z.div_unique with y; lia).
  replace (400 * n + y - 400 * n) with y by ring.
  f_equal. unfold internalToUnix.
  destruct (isLeap year && (3 <=? month)); ring.
Qed.

(** The two cycles that hold the instants whose Unix time in
    nanoseconds is an int64: the years 1601 to 2000 and 2001 to 2400. *)
Lemma days_1601_2000 : checkFrom (dayOK 1601) 146097 0 = true.
Proof. vm_cast_no_check (eq_refl true). Qed.

Lemma days_2001_2400 : checkFrom (dayOK 2001) 146097 0 = true.
Proof. vm_cast_no_check (eq_refl true). Qed.

Lemma date_roundtrip (n base d r : Z) :
  base = 400 * n + absoluteZeroYear ->
  checkFrom (dayOK base) 146097 0 = true ->
  0 <= d < daysPer400Years -> 0 <= r < secondsPerDay ->
  exists year month day,
    absDate ((daysPer400Years * n + d) * secondsPerDay + r) = (year, month, day)
    /\ 1000 <= year <= 9999 /\ 1 <= month <= 12 /\ 1 <= day <= 31
    /\ forall hour min second nanos,
         sec (Date year month day hour min second nanos)
         = Go.wrap_int64
             ((daysPer400Years * n + d) * secondsPerDay
              + (hour * secondsPerHour + min * secondsPerMinute + second)
              + absoluteToInternal).
Proof.
  intros Hbase Hchk Hd Hr.
  rewrite absDate_cycle by assumption. rewrite <- Hbase.
  pose proof (checkFrom_sound _ _ _ Hchk d) as Hok.
  unfold daysPer400Years in Hd. specialize (Hok ltac:(lia)).
  unfold dayOK in Hok.
  destruct (cycleDate base d) as [[year month] day].
  exists year, month, day.
  repeat (apply andb_true_iff in Hok as [Hok ?]).
  repeat match goal with
         | H : (_ <=? _) = true |- _ => apply Z.leb_le in H
         | H : (_ <? _) = true |- _ => apply Z.ltb_lt in H
         | H : (_ =? _) = true |- _ => apply Z.eqb_eq in H
         end.
  split_and!; try lia; [reflexivity|].
  intros hour min second nanos.
  rewrite (Date_cycle n (year - base)) by lia. congruence.
Qed.

Lemma absClock_spec (abs : Z) :
  exists hour min second,
    absClock abs = (hour, min, second)
    /\ 0 <= hour < 24 /\ 0 <= min < 60 /\ 0 <= second < 60
    /\ hour * secondsPerHour + min * secondsPerMinute + second
       = abs mod secondsPerDay.
Proof.
  unfold absClock, secondsPerDay, secondsPerHour, secondsPerMinute.
  cbv zeta. eexists _, _, _. split; [reflexivity|].
  set (s := abs mod (24 * (60 * 60))).
  assert (0 <= s < 86400) by (apply Z.mod_pos_bound; lia).
  change (60 * 60) with 3600.
  pose proof (Z.div_mod s 3600 ltac:(lia)).
  pose proof (Z.mod_pos_bound s 3600 ltac:(lia)).
  set (h := s / 3600) in *.
  pose proof (Z.div_mod (s - h * 3600) 60 ltac:(lia)).
  pose proof (Z.mod_pos_bound (s - h * 3600) 60 ltac:(lia)).
  set (m := (s - h * 3600) / 60) in *.
  lia.
Qed.

(** *** Digits *)

Lemma digit_cases (v : Z) :
  0 <= v <= 9 ->
  v = 0 \/ v = 1 \/ v = 2 \/ v = 3 \/ v = 4 \/ v = 5 \/ v = 6 \/ v = 7
  \/ v = 8 \/ v = 9.
Proof. lia. Qed.

Ltac by_digit_cases v H :=
  apply digit_cases in H;
  repeat (destruct H as [H|H]); subst v; reflexivity.

Lemma isDigit_digit (v : Z) : 0 <= v <= 9 -> isDigit (digit v) = true.
Proof. intros H. by_digit_cases v H. Qed.

Lemma digitVal_digit (v : Z) : 0 <= v <= 9 -> digitVal (digit v) = v.
Proof. intros H. by_digit_cases v H. Qed.

Lemma digit_eqb_zero (v : Z) :
  0 <= v <= 9 -> Ascii.eqb (digit v) "0" = (v =? 0).
Proof. intros H. by_digit_cases v H. Qed.

Lemma digits_step (fuel : nat) (x : Z) (acc : string) :
  digits (S fuel) x acc
  = if x <? 10 then String (digit x) acc
    else digits fuel (x / 10) (String (digit (x mod 10)) acc).
Proof. reflexivity. Qed.

Lemma mod10_range (x : Z) : 0 <= x mod 10 <= 9.
Proof. pose proof (Z.mod_pos_bound x 10 ltac:(lia)). lia. Qed.

Lemma zeroPad_two (x : Z) :
  0 <= x < 100 ->
  zeroPad x = String (digit (x / 10)) (String (digit (x mod 10)) "").
Proof.
  intros Hx. unfold zeroPad. destruct (x <? 10) eqn:E.
  - apply Z.ltb_lt in E.
    rewrite Z.div_small, Z.mod_small by lia. reflexivity.
  - apply Z.ltb_ge in E.
    change 20%nat with (S (S 18)). rewrite digits_step.
    replace (x <? 10) with false by (symmetry; apply Z.ltb_ge; lia).
    rewrite digits_step.
    replace (x / 10 <? 10) with true; [reflexivity|].
    symmetry. apply Z.ltb_lt. apply Z.div_lt_upper_bound; lia.
Qed.

Lemma getnum_zeroPad (x : Z) (rest : string) (fixed : bool) :
  0 <= x < 100 -> getnum (zeroPad x +:+ rest) fixed = Some (x, rest).
Proof.
  intros Hx. rewrite zeroPad_two by exact Hx.
  rewrite !append_cons, append_nil_l. unfold getnum.
  assert (0 <= x / 10 <= 9) as Hq.
  { split; [apply Z.div_pos; lia|].
    assert (x / 10 < 10) by (apply Z.div_lt_upper_bound; lia). lia. }
  rewrite !isDigit_digit, !digitVal_digit by (exact Hq || apply mod10_range).
  do 2 f_equal. pose proof (Z.div_mod x 10 ltac:(lia)). lia.
Qed.

Lemma longYear_four (y : Z) :
  1000 <= y <= 9999 ->
  longYear y
  = String (digit (y / 1000))
      (String (digit (y / 100 mod 10))
         (String (digit (y / 10 mod 10)) (String (digit (y mod 10)) ""))).
Proof.
  intros Hy. unfold longYear.
  replace (y <? 0) with false by (symmetry; apply Z.ltb_ge; lia).
  replace (y <? 10) with false by (symmetry; apply Z.ltb_ge; lia).
  replace (y <? 100) with false by (symmetry; apply Z.ltb_ge; lia).
  replace (y <? 1000) with false by (symmetry; apply Z.ltb_ge; lia).
  assert (y / 10 / 10 = y / 100) as E2 by (rewrite Z.div_div by lia; reflexivity).
  assert (y / 100 / 10 = y / 1000) as E3 by (rewrite Z.div_div by lia; reflexivity).
  assert (100 <= y / 10) by (apply Z.div_le_lower_bound; lia).
  assert (10 <= y / 100) by (apply Z.div_le_lower_bound; lia).
  assert (y / 1000 < 10) by (apply Z.div_lt_upper_bound; lia).
  change 20%nat with (S (S (S (S 16)))).
  rewrite digits_step.
  replace (y <? 10) with false by (symmetry; apply Z.ltb_ge; lia).
  rewrite digits_step.
  replace (y / 10 <? 10) with false by (symmetry; apply Z.ltb_ge; lia).
  rewrite digits_step, E2.
  replace (y / 100 <? 10) with false by (symmetry; apply Z.ltb_ge; lia).
  rewrite digits_step, E3.
  replace (y / 1000 <? 10) with true by (symmetry; apply Z.ltb_lt; lia).
  reflexivity.
Qed.

Lemma parseYear_longYear (y : Z) (rest : string) :
  1000 <= y <= 9999 -> parseYear (longYear y +:+ rest) = Some (y, rest).
Proof.
  intros Hy. rewrite longYear_four by exact Hy.
  rewrite !append_cons, append_nil_l. unfold parseYear.
  assert (0 <= y / 1000 <= 9) as Hq.
  { split; [apply Z.div_pos; lia|].
    assert (y / 1000 < 10) by (apply Z.div_lt_upper_bound; lia). lia. }
  rewrite !isDigit_digit, !digitVal_digit by (exact Hq || apply mod10_range).
  simpl andb. do 2 f_equal.
  assert (y / 10 / 10 = y / 100) as E2 by (rewrite Z.div_div by lia; reflexivity).
  assert (y / 100 / 10 = y / 1000) as E3 by (rewrite Z.div_div by lia; reflexivity).
  pose proof (Z.div_mod y 10 ltac:(lia)).
  pose proof (Z.div_mod (y / 10) 10 ltac:(lia)).
  pose proof (Z.div_mod (y / 100) 10 ltac:(lia)).
  lia.
Qed.

(** *** The fraction *)

Lemma nineDigits_values (n : Z) : nineDigits n = map digit (nineValues n).
Proof. unfold nineDigits, nineValues. now rewrite map_map. Qed.

Lemma nineValues_digits (n : Z) : Forall isDigitValue (nineValues n).
Proof.
  unfold nineValues. apply Forall_map, Forall_forall. intros i _.
  apply mod10_range.
Qed.

Lemma decimal_nineValues (n : Z) :
  0 <= n < 1000000000 -> decimal 0 (nineValues n) = n.
Proof.
  intros Hn.
  change (decimal 0 (nineValues n))
    with (((((((((0 * 10 + n / 100000000 mod 10) * 10 + n / 10000000 mod 10) * 10
               + n / 1000000 mod 10) * 10 + n / 100000 mod 10) * 10
             + n / 10000 mod 10) * 10 + n / 1000 mod 10) * 10
           + n / 100 mod 10) * 10 + n / 10 mod 10) * 10 + n / 1 mod 10).
  rewrite Z.div_1_r.
  assert (n / 10 / 10 = n / 100) as E2 by (rewrite Z.div_div by lia; reflexivity).
  assert (n / 100 / 10 = n / 1000) as E3 by (rewrite Z.div_div by lia; reflexivity).
  assert (n / 1000 / 10 = n / 10000) as E4 by (rewrite Z.div_div by lia; reflexivity).
  assert (n / 10000 / 10 = n / 100000) as E5 by (rewrite Z.div_div by lia; reflexivity).
  assert (n / 100000 / 10 = n / 1000000) as E6 by (rewrite Z.div_div by lia; reflexivity).
  assert (n / 1000000 / 10 = n / 10000000) as E7 by (rewrite Z.div_div by lia; reflexivity).
  assert (n / 10000000 / 10 = n / 100000000) as E8 by (rewrite Z.div_div by lia; reflexivity).
  assert (n / 100000000 < 10) by (apply Z.div_lt_upper_bound; lia).
  assert (0 <= n / 100000000) by (apply Z.div_pos; lia).
  rewrite (Z.mod_small (n / 100000000) 10) by lia.
  pose proof (Z.div_mod n 10 ltac:(lia)).
  pose proof (Z.div_mod (n / 10) 10 ltac:(lia)).
  pose proof (Z.div_mod (n / 100) 10 ltac:(lia)).
  pose proof (Z.div_mod (n / 1000) 10 ltac:(lia)).
  pose proof (Z.div_mod (n / 10000) 10 ltac:(lia)).
  pose proof (Z.div_mod (n / 100000) 10 ltac:(lia)).
  pose proof (Z.div_mod (n / 1000000) 10 ltac:(lia)).
  pose proof (Z.div_mod (n / 10000000) 10 ltac:(lia)).
  lia.
Qed.

Lemma trimZeros_values (ws : list Z) :
  Forall isDigitValue ws -> trimZeros (map digit ws) = map digit (dropZeros ws).
Proof.
  induction 1 as [|w ws Hw _ IH]; [reflexivity|].
  simpl. rewrite digit_eqb_zero by exact Hw.
  destruct (w =? 0); [exact IH | reflexivity].
Qed.

Lemma dropZeros_split (ws : list Z) :
  exists k, ws = (replicate k 0 ++ dropZeros ws)%list.
Proof.
  induction ws as [|w ws [k IH]]; [now exists 0%nat|].
  simpl. destruct (w =? 0) eqn:E.
  - apply Z.eqb_eq in E as ->. exists (S k). simpl. now f_equal.
  - now exists 0%nat.
Qed.

Lemma dropZeros_nil (ws : list Z) :
  dropZeros ws = [] -> Forall (fun w => w = 0) ws.
Proof.
  induction ws as [|w ws IH]; [constructor|].
  simpl. destruct (w =? 0) eqn:E; [|discriminate].
  apply Z.eqb_eq in E. intros H. constructor; [exact E | now apply IH].
Qed.

Lemma decimal_app (x : Z) (vs ws : list Z) :
  decimal x (vs ++ ws) = decimal (decimal x vs) ws.
Proof. apply fold_left_app. Qed.

Lemma decimal_zeros (x : Z) (k : nat) :
  decimal x (replicate k 0) = x * 10 ^ Z.of_nat k.
Proof.
  revert x. induction k as [|k IH]; intros x.
  - simpl. lia.
  - change (decimal x (replicate (S k) 0)) with (decimal (x * 10 + 0) (replicate k 0)).
    rewrite IH, Nat2Z.inj_succ, Z.pow_succ_r by lia. ring.
Qed.

Lemma decimal_all_zero (vs : list Z) :
  Forall (fun w => w = 0) vs -> decimal 0 vs = 0.
Proof.
  induction vs as [|v vs IH] using rev_ind; [reflexivity|].
  intros H. apply Forall_app in H as [H1 H2].
  rewrite decimal_app, IH by exact H1.
  apply Forall_inv in H2. subst v. reflexivity.
Qed.

Lemma leadingDigits_values (vs : list Z) (c : ascii) (rest : string) (x : Z)
    (n : nat) :
  Forall isDigitValue vs -> isDigit c = false ->
  leadingDigits (string_of_list_ascii (map digit vs) +:+ String c rest) x n
  = (decimal x vs, (n + length vs)%nat, String c rest).
Proof.
  intros Hvs Hc. revert x n.
  induction Hvs as [|v vs Hv _ IH]; intros x n.
  - change (leadingDigits (String c rest) x n
            = (x, (n + 0)%nat, String c rest)).
    simpl. rewrite Hc. now rewrite Nat.add_0_r.
  - simpl map. simpl string_of_list_ascii. rewrite append_cons.
    simpl leadingDigits. rewrite isDigit_digit, digitVal_digit by exact Hv.
    rewrite IH. simpl. do 2 f_equal. lia.
Qed.

Lemma decimal_nonneg (vs : list Z) (x : Z) :
  Forall isDigitValue vs -> 0 <= x -> 0 <= decimal x vs.
Proof.
  intros Hvs. revert x. induction Hvs as [|v vs Hv _ IH]; intros x Hx;
    [exact Hx|].
  apply IH. unfold isDigitValue in Hv. lia.
Qed.

Lemma rev_zeros (k : nat) : rev (replicate k 0) = replicate k 0.
Proof.
  induction k as [|k IH]; [reflexivity|].
  simpl. rewrite IH. clear IH.
  induction k as [|k IH]; [reflexivity|]. simpl. now rewrite IH.
Qed.

Lemma parseFraction_dot (c : ascii) (rest : string) :
  parseFraction (String "." (String c rest))
  = if isDigit c then
      let '(ns, n, rest') := leadingDigits (String c rest) 0 0 in
      if 1000000000 <=? ns then None
      else Some (ns * 10 ^ (Z.max 0 (9 - Z.of_nat n)), rest')
    else Some (0, String "." (String c rest)).
Proof. reflexivity. Qed.

Lemma parseFraction_Z (rest : string) :
  parseFraction (String "Z" rest) = Some (0, String "Z" rest).
Proof. reflexivity. Qed.

(** The fraction written for a nanosecond count is read back as that
    count. *)
Lemma parseFraction_formatNano (n : Z) (rest : string) :
  0 <= n < 1000000000 ->
  parseFraction (formatNano n +:+ String "Z" rest) = Some (n, String "Z" rest).
Proof.
  intros Hn. unfold formatNano.
  rewrite nineDigits_values, <- map_rev.
  rewrite trimZeros_values by (apply Forall_rev, nineValues_digits).
  rewrite <- map_rev.
  pose proof (nineValues_digits n) as Hdig.
  pose proof (decimal_nineValues n Hn) as Hval.
  assert (length (nineValues n) = 9%nat) as Hnine by reflexivity.
  destruct (dropZeros_split (rev (nineValues n))) as [k Hk].
  apply (f_equal (@rev Z)) in Hk.
  rewrite rev_involutive, rev_app_distr, rev_zeros in Hk.
  set (vs := rev (dropZeros (rev (nineValues n)))) in *. clearbody vs.
  rewrite Hk in Hdig, Hval, Hnine. clear Hk.
  apply Forall_app in Hdig as [Hvs _].
  rewrite length_app, length_replicate in Hnine.
  rewrite decimal_app, decimal_zeros in Hval.
  pose proof (decimal_nonneg vs 0 Hvs ltac:(lia)) as Hpos.
  destruct vs as [|v vs'].
  - rewrite <- Hval. reflexivity.
  - simpl map.
    cbv iota.
    replace (("." +:+ string_of_list_ascii (digit v :: map digit vs'))
             +:+ String "Z" rest)
      with (String "."
              (String (digit v)
                 (string_of_list_ascii (map digit vs') +:+ String "Z" rest)))
      by reflexivity.
    rewrite parseFraction_dot.
    assert (isDigitValue v) as Hv by (now apply Forall_inv in Hvs).
    rewrite isDigit_digit by exact Hv.
    change (String (digit v)
              (string_of_list_ascii (map digit vs') +:+ String "Z" rest))
      with (string_of_list_ascii (map digit (v :: vs')) +:+ String "Z" rest).
    rewrite leadingDigits_values by (exact Hvs || reflexivity).
    set (val := decimal 0 (v :: vs')) in *.
    assert (0 < 10 ^ Z.of_nat k) by (apply Z.pow_pos_nonneg; lia).
    replace (1000000000 <=? val) with false by (symmetry; apply Z.leb_gt; nia).
    replace (Z.max 0 (9 - Z.of_nat (0 + length (v :: vs'))))
      with (Z.of_nat k) by lia.
    now rewrite Hval.
Qed.

Lemma formatNano_zero : formatNano 0 = "".
Proof. reflexivity. Qed.

(** The fraction is written exactly for a count that is not zero, and
    starts with a dot. *)
Lemma formatNano_nonzero (n : Z) :
  0 < n < 1000000000 ->
  exists c ds, formatNano n = String "." (String c ds).
Proof.
  intros Hn. unfold formatNano.
  rewrite nineDigits_values, <- map_rev.
  rewrite trimZeros_values by (apply Forall_rev, nineValues_digits).
  destruct (dropZeros (rev (nineValues n))) as [|w ws] eqn:E.
  - apply dropZeros_nil in E. apply Forall_rev in E.
    rewrite rev_involutive in E. apply decimal_all_zero in E.
    rewrite decimal_nineValues in E by lia. lia.
  - simpl map. simpl rev.
    destruct (rev (map digit ws) ++ [digit w])%list as [|c ds] eqn:E'.
    + destruct (rev (map digit ws)); discriminate.
    + exists c, (string_of_list_ascii ds). reflexivity.
Qed.

(** *** Parse after Format *)

Lemma skip_lit (c : ascii) (rest : string) :
  skip c (String c "" +:+ rest) = Some rest.
Proof.
  rewrite append_cons, append_nil_l. unfold skip.
  now rewrite Ascii.eqb_refl.
Qed.

Lemma check_true (b : bool) : b = true -> check b = Some tt.
Proof. now intros ->. Qed.

Lemma abs_UTC (t : Time) :
  inCycles (sec t) -> abs (UTC t) = sec t + internalToAbsolute.
Proof.
  unfold inCycles, abs, UTC, Go.wrap_uint64, daysPer400Years, secondsPerDay,
    secondsPerHour. simpl. intros H.
  rewrite Z.add_0_r. apply Z.mod_small. lia.
Qed.

(** The civil date and time of an instant of these years, and the way
    back. *)
Lemma civil_roundtrip (a : Z) :
  daysPer400Years * 730692560 * secondsPerDay <= a
  < daysPer400Years * 730692562 * secondsPerDay ->
  exists year month day hour min second,
    absDate a = (year, month, day) /\ absClock a = (hour, min, second)
    /\ 1000 <= year <= 9999 /\ 1 <= month <= 12 /\ 1 <= day <= 31
    /\ 0 <= hour < 24 /\ 0 <= min < 60 /\ 0 <= second < 60
    /\ forall nanos,
         sec (Date year month day hour min second nanos)
         = Go.wrap_int64 (a + absoluteToInternal).
Proof.
  intros Ha.
  destruct (absClock_spec a) as (hour & min & second & Hc & Hh & Hm & Hs & Hsum).
  pose proof (Z.div_mod a secondsPerDay ltac:(discriminate)) as Hdm.
  pose proof (Z.mod_pos_bound a secondsPerDay ltac:(reflexivity)) as Hr.
  set (r := a mod secondsPerDay) in *. set (d0 := a / secondsPerDay) in *.
  pose proof (Z.div_mod d0 daysPer400Years ltac:(discriminate)) as Hdm'.
  pose proof (Z.mod_pos_bound d0 daysPer400Years ltac:(reflexivity)) as Hd.
  set (d := d0 mod daysPer400Years) in *.
  set (n := d0 / daysPer400Years) in *.
  assert (n = 730692560 \/ n = 730692561) as Hn.
  { unfold daysPer400Years, secondsPerDay, secondsPerHour in *. lia. }
  assert (a = (daysPer400Years * n + d) * secondsPerDay + r) as Ea by lia.
  assert (exists base, base = 400 * n + absoluteZeroYear
                       /\ checkFrom (dayOK base) 146097 0 = true)
    as (base & Hbase & Hchk).
  { destruct Hn as [-> | ->].
    - exists 1601. split; [reflexivity | exact days_1601_2000].
    - exists 2001. split; [reflexivity | exact days_2001_2400]. }
  destruct (date_roundtrip n base d r Hbase Hchk Hd Hr)
    as (year & month & day & Hdate & Hy & Hmo & Hday & Hback).
  exists year, month, day, hour, min, second.
  rewrite Ea at 1. split_and!; try assumption; try lia.
  intros nanos. rewrite Hback, Hsum. f_equal. lia.
Qed.

Lemma Parse_Format (nano : bool) (t : Time) :
  wfTime t -> inCycles (sec t) ->
  Parse (Format nano (UTC t))
  = Some (mkTime (sec t) (if nano then nsec t else 0) UTCLoc).
Proof.
  intros [Hsec Hnsec] Hin. unfold Format.
  rewrite abs_UTC by exact Hin.
  destruct (civil_roundtrip (sec t + internalToAbsolute) Hin)
    as (year & month & day & hour & min & second & -> & -> & Hy & Hmo & Hd
        & Hh & Hmi & Hs & Hback).
  change (formatZone (zoneOffset (UTC t))) with (String "Z" "").
  change (Nanosecond (UTC t)) with (nsec t).
  unfold Parse.
  rewrite parseYear_longYear by exact Hy. cbn [mbind option_bind].
  rewrite (skip_lit "-"). cbn [mbind option_bind].
  rewrite getnum_zeroPad by lia. cbn [mbind option_bind].
  rewrite check_true by (apply andb_true_iff; split;
                         [apply Z.ltb_lt | apply Z.leb_le]; lia).
  cbn [mbind option_bind].
  rewrite (skip_lit "-"). cbn [mbind option_bind].
  rewrite getnum_zeroPad by lia. cbn [mbind option_bind].
  rewrite check_true by (apply Z.leb_le; lia). cbn [mbind option_bind].
  rewrite (skip_lit "T"). cbn [mbind option_bind].
  rewrite getnum_zeroPad by lia. cbn [mbind option_bind].
  rewrite check_true by (apply Z.ltb_lt; lia). cbn [mbind option_bind].
  rewrite (skip_lit ":"). cbn [mbind option_bind].
  rewrite getnum_zeroPad by lia. cbn [mbind option_bind].
  rewrite check_true by (apply Z.ltb_lt; lia). cbn [mbind option_bind].
  rewrite (skip_lit ":"). cbn [mbind option_bind].
  rewrite getnum_zeroPad by lia. cbn [mbind option_bind].
  rewrite check_true by (apply Z.ltb_lt; lia). cbn [mbind option_bind].
  assert (parseFraction ((if nano then formatNano (nsec t) else "")
                         +:+ String "Z" "")
          = Some (if nano then nsec t else 0, String "Z" "")) as ->.
  { destruct nano; [now apply parseFraction_formatNano | reflexivity]. }
  cbn [mbind option_bind].
  change (parseZone (String "Z" "")) with (Some (0, "")).
  cbn [mbind option_bind].
  change (check (bool_decide ("" = ""))) with (Some tt).
  cbn [mbind option_bind].
  rewrite Hback. f_equal.
  replace (sec t + internalToAbsolute + absoluteToInternal) with (sec t)
    by (unfold internalToAbsolute; ring).
  rewrite (wrap_int64_id (sec t)) by exact Hsec.
  rewrite Z.sub_0_r, wrap_int64_id by exact Hsec.
  reflexivity.
Qed.

End TimeFacts.

Lemma Format_civilText (nano : bool) (t : GoTime.Time) :
  GoTime.Format nano t
  = civilText (GoTime.abs t)
    +:+ (if nano then GoTime.formatNano (GoTime.Nanosecond t) else "")
    +:+ GoTime.formatZone (GoTime.zoneOffset t).
Proof.
  unfold GoTime.Format, civilText.
  destruct (GoTime.absDate (GoTime.abs t)) as [[year month] day].
  destruct (GoTime.absClock (GoTime.abs t)) as [[hour min] second].
  now rewrite !append_assoc.
Qed.

Lemma nanosFit_inCycles (t : GoTime.Time) :
  GoTime.wfTime t -> nanosFit t -> TimeModel.inCycles (GoTime.sec t).
Proof.
  unfold GoTime.wfTime, nanosFit, TimeModel.inCycles, Go.is_int64.
  change GoTime.internalToUnix with (-62135596800).
  change GoTime.internalToAbsolute with 9223371966579724800.
  change (GoTime.daysPer400Years * 730692560 * GoTime.secondsPerDay)
    with 9223372017070848000.
  change (GoTime.daysPer400Years * 730692562 * GoTime.secondsPerDay)
    with 9223372042316409600.
  change (2 ^ 63) with 9223372036854775808.
  lia.
Qed.

Lemma UnixNano_fit (t : GoTime.Time) :
  nanosFit t ->
  GoTime.UnixNano t
  = (GoTime.sec t + GoTime.internalToUnix) * 1000000000 + GoTime.nsec t.
Proof. intros H. unfold GoTime.UnixNano. now apply wrap_int64_id. Qed.

Lemma rem_nanos_zero (u n : Z) :
  0 <= n < 1000000000 ->
  (Z.rem (u * 1000000000 + n) 1000000000 =? 0) = (n =? 0).
Proof.
  intros Hn. destruct (n =? 0) eqn:E.
  - apply Z.eqb_eq in E as ->. apply Z.eqb_eq.
    rewrite Z.add_0_r. apply Z.rem_mul. discriminate.
  - apply Z.eqb_neq in E. apply Z.eqb_neq. intros H.
    apply Z.rem_divide in H as [q Hq]; [|discriminate]. lia.
Qed.

(** C8, as the code has it: for an instant whose Unix time in
    nanoseconds is an int64, RFC3339FromTime writes the date and time at
    offset zero followed by the fraction and the designator Z, whatever
    the location of the instant; the fraction is there exactly when the
    nanosecond is not zero; and NanosFromRFC3339 reads the text back to
    the instant's UnixNano. *)
Theorem RFC3339_roundtrip (t : GoTime.Time)
    (Hwf : GoTime.wfTime t) (Hfit : nanosFit t) :
  RFC3339FromTime t
  = civilText (GoTime.sec t + GoTime.internalToAbsolute)
    +:+ GoTime.formatNano (GoTime.nsec t) +:+ "Z"
  /\ (GoTime.formatNano (GoTime.nsec t) = "" <-> GoTime.nsec t = 0)
  /\ (GoTime.nsec t <> 0 ->
      exists c ds, GoTime.formatNano (GoTime.nsec t) = String "." (String c ds))
  /\ NanosFromRFC3339 (RFC3339FromTime t) = GoTime.UnixNano t.
Proof.
  pose proof (nanosFit_inCycles t Hwf Hfit) as Hin.
  pose proof Hwf as [Hsec Hnsec].
  assert (RFC3339FromTime t
          = GoTime.Format (negb (GoTime.nsec t =? 0)) (GoTime.UTC t)) as Hrfc.
  { unfold RFC3339FromTime. rewrite UnixNano_fit by exact Hfit.
    rewrite rem_nanos_zero by exact Hnsec.
    now destruct (GoTime.nsec t =? 0). }
  assert (GoTime.nsec t <> 0 ->
          exists c ds, GoTime.formatNano (GoTime.nsec t)
                       = String "." (String c ds)) as Hfrac.
  { intros Hne. apply TimeFacts.formatNano_nonzero. lia. }
  split_and!.
  - rewrite Hrfc, Format_civilText, TimeFacts.abs_UTC by exact Hin.
    change (GoTime.formatZone (GoTime.zoneOffset (GoTime.UTC t))) with "Z".
    change (GoTime.Nanosecond (GoTime.UTC t)) with (GoTime.nsec t).
    destruct (GoTime.nsec t =? 0) eqn:E; [|reflexivity].
    apply Z.eqb_eq in E. now rewrite E.
  - split.
    + intros He. destruct (Z.eq_dec (GoTime.nsec t) 0) as [E|E]; [exact E|].
      destruct (Hfrac E) as (c & ds & Hc). congruence.
    + now intros ->.
  - exact Hfrac.
  - rewrite Hrfc. unfold NanosFromRFC3339.
    rewrite TimeFacts.Parse_Format by assumption.
    unfold GoTime.UnixNano. simpl.
    destruct (GoTime.nsec t =? 0) eqn:E; [|reflexivity].
    apply Z.eqb_eq in E. now rewrite E.
Qed.

Lemma RFC3339_roundtrip_witness :
  GoTime.wfTime leapDayNoon /\ nanosFit leapDayNoon
  /\ RFC3339FromTime leapDayNoon = "2012-02-29T12:00:00.5Z"
  /\ NanosFromRFC3339 (RFC3339FromTime leapDayNoon)
     = GoTime.UnixNano leapDayNoon.
Proof.
  assert (GoTime.wfTime leapDayNoon) as Hwf
    by (vm_compute; repeat split; discriminate || reflexivity).
  assert (nanosFit leapDayNoon) as Hfit
    by (vm_compute; repeat split; discriminate || reflexivity).
  split_and!; [exact Hwf | exact Hfit | reflexivity |].
  exact (proj2 (proj2 (proj2 (RFC3339_roundtrip leapDayNoon Hwf Hfit)))).
Defined.

(** C8 as stated fails outside these instants: the year 10000 is
    written with five digits, which Parse refuses; and in 2286 the
    wrapped UnixNano of an instant with a fraction is a multiple of 10^9,
    so the fraction is not written. *)
Lemma RFC3339_out_of_range :
  GoTime.wfTime year10000
  /\ RFC3339FromTime year10000 = "10000-01-01T00:00:00Z"
  /\ NanosFromRFC3339 (RFC3339FromTime year10000) = -1
  /\ GoTime.UnixNano year10000 = -4852116231933722624
  /\ GoTime.wfTime year2286
  /\ GoTime.nsec year2286 = 709551616
  /\ RFC3339FromTime year2286 = "2286-11-20T17:46:40Z"
  /\ NanosFromRFC3339 (RFC3339FromTime year2286) = -8446744073709551616
  /\ GoTime.UnixNano year2286 = -8446744073000000000.
Proof.
  split_and!; try (vm_compute; reflexivity);
    vm_compute; repeat split; discriminate || reflexivity.
Qed.

(** * Properties of the rest of the package *)

(** ** Directory entries, continued *)

Section DirEntryMore.
Context {SeekFetcher FileReader DirReader : Type}.
Implicit Types de : dirEntry SeekFetcher FileReader DirReader.

Lemma later_same_superset de de' :
  later de de' -> ss de' = ss de /\ fetcher de' = fetcher de.
Proof.
  induction 1 as [de | nfr de de' _ IH | ndr de de' _ IH].
  - now split.
  - destruct IH as [Hs Hf]. unfold File.
    destruct (fr de'); simpl; [now split|].
    destruct (decide (Type_ (ss de') <> "file")); simpl; [now split|].
    destruct (nfr (fetcher de') (SsBlobRef (ss de'))); simpl; now split.
  - destruct IH as [Hs Hf]. unfold Directory.
    destruct (dr de'); simpl; [now split|].
    destruct (decide (Type_ (ss de') <> "directory")); simpl; [now split|].
    destruct (ndr (fetcher de') (SsBlobRef (ss de'))); simpl; now split.
Qed.

(** X6: an entry keeps the Superset it was made from: whatever calls of File
    and Directory follow, with whatever outcome, CamliType, FileName and
    BlobRef answer as on the Superset given to NewDirectoryEntry, and the
    type is one of the three entry types and the BlobRef is not nil. *)
Theorem dirEntry_accessors_stable overflow (f : SeekFetcher) (s : Superset)
    de de' :
  NewDirectoryEntry FileReader DirReader f (Some s) = Ok de ->
  later de de' ->
  CamliType de' = Type_ s
  /\ dirEntry_FileName overflow de' = FileNameString overflow s
  /\ dirEntry_BlobRef _ _ _ de' = SsBlobRef s
  /\ is_Some (SsBlobRef s)
  /\ (Type_ s = "file" \/ Type_ s = "directory" \/ Type_ s = "symlink").
Proof.
  intros Hnew Hl. apply later_same_superset in Hl as [Hs _].
  unfold NewDirectoryEntry in Hnew.
  destruct (SsBlobRef s) as [b|] eqn:Hb; [|discriminate].
  destruct (validEntryType (Type_ s)) eqn:Hv; [|discriminate].
  injection Hnew as <-. simpl in Hs.
  unfold CamliType, dirEntry_FileName, dirEntry_BlobRef. rewrite Hs.
  split_and!; try reflexivity; [exact Hb | now exists b |].
  now apply validEntryType_iff.
Qed.

(** X4: the sibling of File: on an entry whose CamliType is not "directory",
    Directory fails with the type-mismatch error and leaves the entry as
    it was; a reader it returns is cached, and every later call of
    Directory returns that same reader. *)
Theorem Directory_mismatch_and_cache de (H : reachable de) :
  (CamliType de <> "directory" ->
   forall ndr,
     Directory ndr de
     = (de, Err (ErrNotCamliType (CamliType de) "directory")))
  /\ (forall ndr r de1, Directory ndr de = (de1, Ok r) ->
      dr de1 = Some r
      /\ forall de2 ndr', later de1 de2 ->
           Directory ndr' de2 = (de2, Ok r)).
Proof.
  apply reachable_cacheInv in H. destruct H as [_ Hd]. split.
  - intros Hne ndr. unfold Directory, CamliType in *.
    destruct (dr de) as [r|].
    + destruct Hne. apply Hd. now exists r.
    + now destruct (decide (Type_ (ss de) <> "directory")).
  - intros ndr r de1 HD.
    assert (dr de1 = Some r) as Hr.
    { unfold Directory in HD. destruct (dr de) as [r0|] eqn:Hdr.
      - injection HD as <- <-. exact Hdr.
      - destruct (decide (Type_ (ss de) <> "directory")); [discriminate|].
        destruct (ndr (fetcher de) (SsBlobRef (ss de))); [|discriminate].
        injection HD as <- <-. reflexivity. }
    split; [exact Hr|].
    intros de2 ndr' Hl.
    assert (dr de2 = Some r) as Hr2.
    { induction Hl as [de1 | nfr de1 de2 _ IH | ndr2 de1 de2 _ IH].
      - exact Hr.
      - specialize (IH HD Hr). unfold File.
        destruct (fr de2); simpl; [exact IH|].
        destruct (decide (Type_ (ss de2) <> "file")); simpl; [exact IH|].
        destruct (nfr (fetcher de2) (SsBlobRef (ss de2))); simpl; exact IH.
      - specialize (IH HD Hr). unfold Directory. now rewrite IH. }
    unfold Directory. now rewrite Hr2.
Qed.

(** X5: File and Directory exclude each other, and Symlink is not there yet:
    on an entry made by NewDirectoryEntry, whatever was called on it
    before and whatever the reader constructors answer, File and
    Directory never both succeed, and on an entry of type "symlink" (which
    NewDirectoryEntry accepts) none of File, Directory and Symlink
    succeeds. *)
Theorem dirEntry_readers_exclusive de (H : reachable de) :
  (forall nfr ndr, is_err (snd (File nfr de)) \/ is_err (snd (Directory ndr de)))
  /\ (CamliType de = "symlink" ->
      forall nfr ndr,
        is_err (snd (File nfr de)) /\ is_err (snd (Directory ndr de))
        /\ is_err (snd (Symlink _ _ _ de))).
Proof.
  apply reachable_cacheInv in H. destruct H as [Hf Hd].
  assert (forall nfr, Type_ (ss de) <> "file" -> is_err (snd (File nfr de)))
    as HF.
  { intros nfr Hne. unfold File. destruct (fr de) as [r|].
    - destruct Hne. apply Hf. now exists r.
    - now destruct (decide (Type_ (ss de) <> "file")). }
  assert (forall ndr, Type_ (ss de) <> "directory" ->
                      is_err (snd (Directory ndr de))) as HD.
  { intros ndr Hne. unfold Directory. destruct (dr de) as [r|].
    - destruct Hne. apply Hd. now exists r.
    - now destruct (decide (Type_ (ss de) <> "directory")). }
  split_and!.
  - intros nfr ndr.
    destruct (decide (Type_ (ss de) = "file")) as [E|N].
    + right. apply HD. rewrite E. discriminate.
    + left. now apply HF.
  - unfold CamliType. intros E nfr ndr. split_and!.
    + apply HF. rewrite E. discriminate.
    + apply HD. rewrite E. discriminate.
    + exact I.
Qed.
End DirEntryMore.

Lemma dirEntry_accessors_stable_witness :
  CamliType (fst (File (fun _ _ => Ok 7%nat) fileEntry)) = "file"
  /\ dirEntry_BlobRef _ _ _ (fst (File (fun _ _ => Ok 7%nat) fileEntry))
     = Some someRef.
Proof.
  pose proof (dirEntry_accessors_stable (fun _ => "?"%char) tt
                (withType (Some someRef) "file" zeroSuperset)
                fileEntry (fst (File (fun _ _ => Ok 7%nat) fileEntry))
                eq_refl (later_File _ _ _ (later_refl _)))
    as (Ht & _ & Hb & _).
  split; [exact Ht | exact Hb].
Defined.

Lemma Directory_mismatch_and_cache_witness :
  Directory (fun _ _ => Ok 7%nat) fileEntry
  = (fileEntry, Err (ErrNotCamliType "file" "directory"))
  /\ Directory (fun _ _ => Err (ErrFetch "gone"))
       (fst (Directory (fun _ _ => Ok 7%nat) dirOnlyEntry))
     = (fst (Directory (fun _ _ => Ok 7%nat) dirOnlyEntry), Ok 7%nat).
Proof.
  assert (reachable fileEntry) as Hf
    by (apply (reach_new unit nat nat tt
                 (withType (Some someRef) "file" zeroSuperset));
        reflexivity).
  assert (reachable dirOnlyEntry) as Hd
    by (apply (reach_new unit nat nat tt
                 (withType (Some someRef) "directory" zeroSuperset));
        reflexivity).
  split.
  - apply (proj1 (Directory_mismatch_and_cache fileEntry Hf)). discriminate.
  - apply (proj2 (proj2 (Directory_mismatch_and_cache dirOnlyEntry Hd)
                    (fun _ _ => Ok 7%nat) 7%nat
                    (fst (Directory (fun _ _ => Ok 7%nat) dirOnlyEntry))
                    eq_refl)).
    apply later_refl.
Defined.

Lemma dirEntry_readers_exclusive_witness :
  is_err (snd (File (fun _ _ => Ok 7%nat) symlinkEntry))
  /\ is_err (snd (Directory (fun _ _ => Ok 7%nat) symlinkEntry))
  /\ is_err (snd (Symlink _ _ _ symlinkEntry)).
Proof.
  assert (reachable symlinkEntry) as Hs
    by (apply (reach_new unit nat nat tt
                 (withType (Some someRef) "symlink" zeroSuperset));
        reflexivity).
  exact (proj2 (dirEntry_readers_exclusive symlinkEntry Hs) eq_refl
           (fun _ _ => Ok 7%nat) (fun _ _ => Ok 7%nat)).
Defined.

Section FromBlobRef.
Context {SeekFetcher : Type} (FileReader DirReader : Type).
Variable setFromBlobRef :
  SeekFetcher -> option BlobRef -> Superset -> Superset * option string.

(** X7: NewDirectoryEntryFromBlobRef fails whenever the Superset cannot be
    filled; an entry it returns holds the filled Superset, with no
    reader cached, and is there only if filling stored a BlobRef in the
    Superset and the type is one of the three entry types. *)
Theorem NewDirectoryEntryFromBlobRef_entry (f : SeekFetcher)
    (blobRef : option BlobRef) :
  (forall s msg, setFromBlobRef f blobRef zeroSuperset = (s, Some msg) ->
     is_err (NewDirectoryEntryFromBlobRef FileReader DirReader
               setFromBlobRef f blobRef))
  /\ (forall de,
      NewDirectoryEntryFromBlobRef FileReader DirReader setFromBlobRef f blobRef
      = Ok de ->
      setFromBlobRef f blobRef zeroSuperset = (ss de, None)
      /\ reachable de /\ fetcher de = f /\ fr de = None /\ dr de = None
      /\ is_Some (SsBlobRef (ss de))
      /\ (Type_ (ss de) = "file" \/ Type_ (ss de) = "directory"
          \/ Type_ (ss de) = "symlink")).
Proof.
  unfold NewDirectoryEntryFromBlobRef. split.
  - intros s msg ->. exact I.
  - intros de. destruct (setFromBlobRef f blobRef zeroSuperset) as [s [msg|]];
      [discriminate|].
    intros Hnew. pose proof Hnew as Hr. apply reach_new in Hr.
    unfold NewDirectoryEntry in Hnew.
    destruct (SsBlobRef s) as [b|] eqn:Hb; [|discriminate].
    destruct (validEntryType (Type_ s)) eqn:Hv; [|discriminate].
    injection Hnew as <-. simpl.
    split_and!; try reflexivity; [exact Hr | now exists b |].
    now apply validEntryType_iff.
Qed.
End FromBlobRef.

(** ** Sizes of parts *)

Lemma wrap_uint64_add_l (a b : Z) :
  Go.wrap_uint64 (Go.wrap_uint64 a + b) = Go.wrap_uint64 (a + b).
Proof. unfold Go.wrap_uint64. now rewrite Zplus_mod_idemp_l. Qed.

Lemma fold_sum_uint64 (parts : list BytesPart) (size : Z) :
  fold_left (fun size part => Go.wrap_uint64 (size + Size part)) parts
    (Go.wrap_uint64 size)
  = Go.wrap_uint64 (size + totalSize parts).
Proof.
  revert size. induction parts as [|part parts IH]; intros size; simpl.
  - now rewrite Z.add_0_r.
  - rewrite IH, <- Z.add_assoc, wrap_uint64_add_l. reflexivity.
Qed.

Lemma wrap_uint64_wrap_int64 (z : Z) :
  Go.wrap_uint64 (Go.wrap_int64 z) = Go.wrap_uint64 z.
Proof.
  unfold Go.wrap_uint64, Go.wrap_int64.
  rewrite Zminus_mod_idemp_l. f_equal. ring.
Qed.

(** X8: SumPartsSize is the sum of the sizes modulo 2^64; and a size and part
    list that PopulateParts accepts agree with it: the accepted size,
    converted to uint64, is the SumPartsSize of a Superset holding these
    parts. *)
Theorem SumPartsSize_PopulateParts (s : Superset) :
  SumPartsSize s = totalSize (Parts s) mod 2 ^ 64
  /\ forall m m' size,
       PopulateParts m size (Parts s) = (m', Returned None) ->
       SumPartsSize s = Go.wrap_uint64 size.
Proof.
  assert (SumPartsSize s = Go.wrap_uint64 (totalSize (Parts s))) as E.
  { unfold SumPartsSize. change 0 with (Go.wrap_uint64 0) at 1.
    now rewrite fold_sum_uint64. }
  split; [exact E|].
  intros m m' size H. rewrite PopulateParts_unfold in H.
  destruct (decide (Exists bothRefs (Parts s))); [discriminate|].
  simpl in H.
  destruct (decide (Go.wrap_int64 (totalSize (Parts s)) <> size)) as [|Hs];
    [discriminate|].
  apply dec_stable in Hs. rewrite E, <- Hs.
  now rewrite wrap_uint64_wrap_int64.
Qed.

(** ** MapToCamliJSON, continued *)

Lemma sortedEntries_empty : sortedEntries ∅ = [].
Proof.
  apply Permutation_nil_r. rewrite sortedEntries_perm.
  now rewrite map_to_list_empty.
Qed.

(** X9: a map that holds camliVersion and nothing else is written as an
    opening line only: the text of json.MarshalIndent for the rest, an
    empty object, is two bytes long, and both are cut off. *)
Theorem MapToCamliJSON_version_only (enc : Encoder) (m : gmap string value)
    (version : value) :
  m !! "camliVersion" = Some version ->
  (forall k, k <> "camliVersion" -> m !! k = None) ->
  MapToCamliJSON enc m
  = (m, Ok ("{" +:+ dquote +:+ "camliVersion" +:+ dquote +:+ ": "
            +:+ fmtV enc version +:+ "," +:+ newline)).
Proof.
  intros Hv Hk.
  assert (delete "camliVersion" m = ∅) as He.
  { apply map_eq. intros k. rewrite lookup_empty.
    destruct (decide (k = "camliVersion")) as [->|Hne].
    - apply lookup_delete_eq.
    - rewrite lookup_delete_ne by congruence. now apply Hk. }
  rewrite MapToCamliJSON_unfold, Hv, He.
  unfold marshalEntries. rewrite sortedEntries_empty. simpl.
  rewrite <- He, insert_delete_id by exact Hv.
  unfold camliText. now rewrite !append_nil_r.
Qed.

Lemma MapToCamliJSON_version_only_witness :
  MapToCamliJSON plainEncoder {["camliVersion" := VInt 1]}
  = ({["camliVersion" := VInt 1]},
     Ok ("{" +:+ dquote +:+ "camliVersion" +:+ dquote +:+ ": 1," +:+ newline)).
Proof.
  apply (MapToCamliJSON_version_only plainEncoder
           {["camliVersion" := VInt 1]} (VInt 1)).
  - reflexivity.
  - intros k Hk. now apply lookup_singleton_ne.
Defined.

(** X10: a successful call leaves the map as it found it, camliVersion
    included, so that a second call on the map gives the same text. *)
Theorem MapToCamliJSON_repeatable (enc : Encoder) (m m' : gmap string value)
    (out : string) :
  MapToCamliJSON enc m = (m', Ok out) ->
  m' = m /\ MapToCamliJSON enc m' = (m', Ok out).
Proof.
  intros H. assert (m' = m) as ->; [|now split].
  revert H. unfold MapToCamliJSON.
  destruct (m !! "camliVersion") as [version|] eqn:Hv; [|discriminate].
  destruct (MarshalIndent enc (delete "camliVersion" m)); [|discriminate].
  intros [= <- _]. now apply insert_delete_id.
Qed.

Lemma MapToCamliJSON_repeatable_witness :
  NewBytes = NewBytes
  /\ MapToCamliJSON plainEncoder NewBytes
     = (NewBytes,
        Ok (camliText plainEncoder "1"
              [("camliType", dquote +:+ "bytes" +:+ dquote)])).
Proof.
  apply (MapToCamliJSON_repeatable plainEncoder NewBytes NewBytes).
  vm_compute. reflexivity.
Defined.

(** ** The text of claims and shares *)

Section ClaimText.
Variable enc : Encoder.
(** encoding/json writes every string. *)
Variable js : string -> string.
Hypothesis jsonValue_string : forall s, jsonValue enc (VString s) = Some (js s).

Lemma MapToCamliJSON_entries (m : gmap string value) version entries members :
  m !! "camliVersion" = Some version ->
  sortedEntries (delete "camliVersion" m) = entries ->
  mapM (encodeEntry enc) entries = Some members ->
  MapToCamliJSON enc m = (m, Ok (camliText enc (fmtV enc version) members)).
Proof.
  intros Hv Hs Hm. rewrite MapToCamliJSON_unfold, Hv.
  unfold marshalEntries. rewrite Hs, Hm.
  now rewrite insert_delete_id by exact Hv.
Qed.

(** X11: the text of an attribute claim: after camliVersion come attribute,
    camliType, claimDate, claimType and permaNode, in this order, and for
    a set or add claim the value last; the map is left as it was. *)
Theorem MapToCamliJSON_attribute_claims (now : GoTime.Time)
    (permaNode : BlobRef) (attr val : string) :
  MapToCamliJSON enc (NewSetAttributeClaim now permaNode attr val)
  = (NewSetAttributeClaim now permaNode attr val,
     Ok (camliText enc (fmtV enc (VInt 1))
           [("attribute", js attr); ("camliType", js "claim");
            ("claimDate", js (RFC3339FromTime now));
            ("claimType", js "set-attribute");
            ("permaNode", js (BlobRef_String permaNode));
            ("value", js val)]))
  /\ MapToCamliJSON enc (NewAddAttributeClaim now permaNode attr val)
     = (NewAddAttributeClaim now permaNode attr val,
        Ok (camliText enc (fmtV enc (VInt 1))
              [("attribute", js attr); ("camliType", js "claim");
               ("claimDate", js (RFC3339FromTime now));
               ("claimType", js "add-attribute");
               ("permaNode", js (BlobRef_String permaNode));
               ("value", js val)]))
  /\ MapToCamliJSON enc (NewDelAttributeClaim now permaNode attr)
     = (NewDelAttributeClaim now permaNode attr,
        Ok (camliText enc (fmtV enc (VInt 1))
              [("attribute", js attr); ("camliType", js "claim");
               ("claimDate", js (RFC3339FromTime now));
               ("claimType", js "del-attribute");
               ("permaNode", js (BlobRef_String permaNode))])).
Proof.
  unfold NewSetAttributeClaim, NewAddAttributeClaim, NewDelAttributeClaim,
    newAttrChangeClaim, NewClaim, newCamliMap.
  generalize (RFC3339FromTime now) as date.
  generalize (BlobRef_String permaNode) as perma. intros perma date.
  split_and!.
  - eapply MapToCamliJSON_entries; [reflexivity | vm_compute; reflexivity |].
    simpl. unfold encodeEntry. simpl. now rewrite !jsonValue_string.
  - eapply MapToCamliJSON_entries; [reflexivity | vm_compute; reflexivity |].
    simpl. unfold encodeEntry. simpl. now rewrite !jsonValue_string.
  - eapply MapToCamliJSON_entries; [reflexivity | vm_compute; reflexivity |].
    simpl. unfold encodeEntry. simpl. now rewrite !jsonValue_string.
Qed.
End ClaimText.

Lemma MapToCamliJSON_attribute_claims_witness :
  MapToCamliJSON plainEncoder (NewDelAttributeClaim leapDayNoon someRef "tag")
  = (NewDelAttributeClaim leapDayNoon someRef "tag",
     Ok (camliText plainEncoder "1"
           [("attribute", dquote +:+ "tag" +:+ dquote);
            ("camliType", dquote +:+ "claim" +:+ dquote);
            ("claimDate", dquote +:+ RFC3339FromTime leapDayNoon +:+ dquote);
            ("claimType", dquote +:+ "del-attribute" +:+ dquote);
            ("permaNode", dquote +:+ "sha1-0beec7b5" +:+ dquote)])).
Proof.
  exact (proj2 (proj2 (MapToCamliJSON_attribute_claims plainEncoder
                         (fun s => dquote +:+ s +:+ dquote)
                         (fun _ => eq_refl) leapDayNoon someRef "tag" ""))).
Defined.

(** ** Timestamps, continued *)

Lemma Parse_RFC3339FromTime (t : GoTime.Time) :
  GoTime.wfTime t -> nanosFit t ->
  GoTime.Parse (RFC3339FromTime t)
  = Some (GoTime.mkTime (GoTime.sec t) (GoTime.nsec t) GoTime.UTCLoc).
Proof.
  intros Hwf Hfit. pose proof (nanosFit_inCycles t Hwf Hfit) as Hin.
  pose proof Hwf as [_ Hnsec].
  unfold RFC3339FromTime. rewrite UnixNano_fit by exact Hfit.
  rewrite rem_nanos_zero by exact Hnsec.
  destruct (GoTime.nsec t =? 0) eqn:E.
  - rewrite TimeFacts.Parse_Format by assumption.
    apply Z.eqb_eq in E. now rewrite E.
  - now rewrite TimeFacts.Parse_Format by assumption.
Qed.

(** The text depends on the instant alone: the location of a time does
    not show in it. *)
Lemma RFC3339FromTime_instant (t : GoTime.Time) :
  RFC3339FromTime t
  = RFC3339FromTime (GoTime.mkTime (GoTime.sec t) (GoTime.nsec t) GoTime.UTCLoc).
Proof. reflexivity. Qed.

(** X12: among the instants whose Unix time in nanoseconds is an int64, two
    times are written alike exactly when they are the same instant,
    whatever their locations: the text is a canonical name of the
    instant. *)
Theorem RFC3339FromTime_canonical (t1 t2 : GoTime.Time) :
  GoTime.wfTime t1 -> nanosFit t1 -> GoTime.wfTime t2 -> nanosFit t2 ->
  RFC3339FromTime t1 = RFC3339FromTime t2
  <-> GoTime.sec t1 = GoTime.sec t2 /\ GoTime.nsec t1 = GoTime.nsec t2.
Proof.
  intros Hwf1 Hfit1 Hwf2 Hfit2. split.
  - intros E.
    pose proof (Parse_RFC3339FromTime t1 Hwf1 Hfit1) as H1.
    pose proof (Parse_RFC3339FromTime t2 Hwf2 Hfit2) as H2.
    rewrite E, H2 in H1. now injection H1 as -> ->.
  - intros [Hs Hn].
    rewrite (RFC3339FromTime_instant t1), (RFC3339FromTime_instant t2).
    now rewrite Hs, Hn.
Qed.

(** X13: ModTime reads back what RFC3339FromTime wrote: for an instant whose
    Unix time in nanoseconds is an int64, the ModTime of a Superset whose
    unixMtime is the text of the instant is that instant, in UTC. *)
Theorem ModTime_RFC3339FromTime (t : GoTime.Time) (s : Superset) :
  GoTime.wfTime t -> nanosFit t ->
  UnixMtime s = RFC3339FromTime t ->
  ModTime s = GoTime.mkTime (GoTime.sec t) (GoTime.nsec t) GoTime.UTCLoc
  /\ GoTime.UnixNano (ModTime s) = GoTime.UnixNano t
  /\ IsZero (ModTime s) = IsZero t.
Proof.
  intros Hwf Hfit E.
  assert (ModTime s
          = GoTime.mkTime (GoTime.sec t) (GoTime.nsec t) GoTime.UTCLoc) as ->.
  { pose proof (Parse_RFC3339FromTime t Hwf Hfit) as HP.
    unfold ModTime. rewrite E.
    destruct (decide (RFC3339FromTime t = "")) as [E0|_].
    - rewrite E0 in HP. discriminate HP.
    - now rewrite HP. }
  now split_and!.
Qed.

(** X14: the answer -1 of NanosFromRFC3339 does not tell a failure: the last
    nanosecond of 1969 is written as a text that parses, and read back as
    -1, as is a text that does not parse. *)
Theorem NanosFromRFC3339_minus_one (t : GoTime.Time) :
  GoTime.wfTime t -> GoTime.sec t + GoTime.internalToUnix = -1 ->
  GoTime.nsec t = 999999999 ->
  RFC3339FromTime t = "1969-12-31T23:59:59.999999999Z"
  /\ is_Some (GoTime.Parse (RFC3339FromTime t))
  /\ NanosFromRFC3339 (RFC3339FromTime t) = -1
  /\ NanosFromRFC3339 "" = -1.
Proof.
  intros Hwf Hs Hn.
  assert (GoTime.sec t = GoTime.sec lastOf1969) as Es
    by (change (GoTime.sec lastOf1969) with (-1 + GoTime.unixToInternal);
        unfold GoTime.internalToUnix in Hs; lia).
  assert (RFC3339FromTime t = RFC3339FromTime lastOf1969) as E.
  { rewrite (RFC3339FromTime_instant t), Es, Hn. reflexivity. }
  rewrite E. split_and!; try (vm_compute; reflexivity).
  vm_compute. eexists. reflexivity.
Qed.

(** X15: the date of a claim is the instant of its making: for an instant
    whose Unix time in nanoseconds is an int64, NanosFromRFC3339 reads
    the claimDate of every claim the package makes back to the UnixNano
    of that instant. *)
Theorem claimDate_reads_back (now : GoTime.Time) (permaNode : BlobRef)
    (claimType attr val : string) (m : gmap string value) :
  GoTime.wfTime now -> nanosFit now ->
  m = NewClaim now permaNode claimType
  \/ m = NewSetAttributeClaim now permaNode attr val
  \/ m = NewAddAttributeClaim now permaNode attr val
  \/ m = NewDelAttributeClaim now permaNode attr ->
  exists date,
    m !! "claimDate" = Some (VString date)
    /\ NanosFromRFC3339 date = GoTime.UnixNano now.
Proof.
  intros Hwf Hfit Hm. exists (RFC3339FromTime now). split.
  - destruct Hm as [-> | [-> | [-> | ->]]]; reflexivity.
  - unfold NanosFromRFC3339.
    now rewrite Parse_RFC3339FromTime by assumption.
Qed.

(** ** ParseUint and FileMode *)

Lemma digitValue_octal (d : ascii) :
  isOctalDigit d = true ->
  Strconv.digitValue d = Some (Z.of_N (N_of_ascii d) - 48)
  /\ 0 <= Z.of_N (N_of_ascii d) - 48 < 8.
Proof.
  unfold isOctalDigit, Strconv.digitValue. cbv zeta.
  generalize (Z.of_N (N_of_ascii d)) as c. intros c H.
  apply andb_true_iff in H as [H1 H2].
  apply Z.leb_le in H1. apply Z.leb_le in H2.
  replace (48 <=? c) with true by (symmetry; apply Z.leb_le; lia).
  replace (c <=? 57) with true by (symmetry; apply Z.leb_le; lia).
  simpl. split; [reflexivity | lia].
Qed.

Lemma digitValue_below_8 (d : ascii) (v : Z) :
  Strconv.digitValue d = Some v -> v < 8 -> isOctalDigit d = true.
Proof.
  unfold isOctalDigit, Strconv.digitValue. cbv zeta.
  generalize (Z.of_N (N_of_ascii d)) as c. intros c.
  destruct (48 <=? c) eqn:E1; simpl.
  - destruct (c <=? 57) eqn:E2; simpl.
    + intros [= <-] Hv. apply Z.leb_le. lia.
    + apply Z.leb_gt in E2.
      destruct ((97 <=? c) && (c <=? 122)) eqn:E3.
      * apply andb_true_iff in E3 as [E3 _]. apply Z.leb_le in E3.
        intros [= <-]. lia.
      * destruct ((65 <=? c) && (c <=? 90)) eqn:E4; [|discriminate].
        apply andb_true_iff in E4 as [E4 _]. apply Z.leb_le in E4.
        intros [= <-]. lia.
  - apply Z.leb_gt in E1.
    replace (97 <=? c) with false by (symmetry; apply Z.leb_gt; lia).
    replace (65 <=? c) with false by (symmetry; apply Z.leb_gt; lia).
    discriminate.
Qed.

Lemma octalFrom_ge (s : string) (n : Z) :
  allOctal s = true -> 0 <= n -> n <= octalFrom n s.
Proof.
  revert n. induction s as [|d rest IH]; intros n Ho Hn; simpl; [lia|].
  simpl in Ho. apply andb_true_iff in Ho as [Hd Hr].
  destruct (digitValue_octal d Hd) as [_ Hv].
  specialize (IH (n * 8 + (Z.of_N (N_of_ascii d) - 48)) Hr). lia.
Qed.

(** The loop reads octal digits, and nothing else, to their number, as
    long as the number is a uint64. *)
Lemma parseDigits_octal (s : string) (n r : Z) :
  0 <= n < 2 ^ 64 ->
  Strconv.parseDigits 8 s n = (r, None)
  <-> allOctal s = true /\ octalFrom n s = r /\ r < 2 ^ 64.
Proof.
  revert n. induction s as [|d rest IH]; intros n Hn; simpl.
  - split; [intros [= <-] | intros (_ & <- & _)]; [split_and!|]; try easy; lia.
  - destruct (Strconv.digitValue d) as [v|] eqn:Hd.
    + destruct (8 <=? v) eqn:Hv.
      * apply Z.leb_le in Hv. split; [discriminate|].
        intros (Ho & _). apply andb_true_iff in Ho as [Ho _].
        destruct (digitValue_octal d Ho) as [E ?]. rewrite E in Hd.
        injection Hd as <-. lia.
      * apply Z.leb_gt in Hv.
        pose proof (digitValue_below_8 d v Hd Hv) as Ho.
        destruct (digitValue_octal d Ho) as [E Hr]. rewrite Hd in E.
        injection E as ->. rewrite Ho. simpl.
        change (Strconv.cutoff64 8) with (2 ^ 61).
        destruct (2 ^ 61 <=? n) eqn:Hc.
        -- apply Z.leb_le in Hc. split; [discriminate|].
           intros (Hrest & Hval & Hlt).
           pose proof (octalFrom_ge rest (n * 8 + (Z.of_N (N_of_ascii d) - 48))
                         Hrest ltac:(lia)). lia.
        -- apply Z.leb_gt in Hc.
           set (v := Z.of_N (N_of_ascii d) - 48) in *.
           assert (Go.wrap_uint64 (n * 8) = n * 8) as ->
             by (unfold Go.wrap_uint64; apply Z.mod_small; lia).
           assert (Go.wrap_uint64 (n * 8 + v) = n * 8 + v) as ->
             by (unfold Go.wrap_uint64; apply Z.mod_small; lia).
           replace (n * 8 + v <? n * 8) with false
             by (symmetry; apply Z.ltb_ge; lia).
           replace (Strconv.maxUint64 <? n * 8 + v) with false
             by (symmetry; apply Z.ltb_ge; unfold Strconv.maxUint64; lia).
           simpl. rewrite IH by lia. tauto.
    + split; [discriminate|]. intros (Ho & _).
      apply andb_true_iff in Ho as [Ho _].
      destruct (digitValue_octal d Ho) as [E _]. congruence.
Qed.

Lemma parseDigits_value (b : Z) (s : string) (n r : Z) e :
  Strconv.parseDigits b s n = (r, Some e) -> r = 0 \/ r = Strconv.maxUint64.
Proof.
  revert n. induction s as [|d rest IH]; intros n; simpl; [discriminate|].
  destruct (Strconv.digitValue d) as [v|]; [|intros [= <- _]; now left].
  destruct (b <=? v); [intros [= <- _]; now left|].
  destruct (Strconv.cutoff64 b <=? n); [intros [= <- _]; now right|].
  destruct ((Go.wrap_uint64 (Go.wrap_uint64 (n * b) + v)
             <? Go.wrap_uint64 (n * b))
            || (Strconv.maxUint64
                <? Go.wrap_uint64 (Go.wrap_uint64 (n * b) + v)));
    [intros [= <- _]; now right | apply IH].
Qed.

(** ParseUint in base 8 accepts exactly the non-empty strings of octal
    digits whose number is below 2^64, and answers that number. *)
Lemma ParseUint_octal (s : string) (r : Z) :
  Strconv.ParseUint s 8 = (r, None)
  <-> s <> "" /\ allOctal s = true /\ octalFrom 0 s = r /\ r < 2 ^ 64.
Proof.
  destruct s as [|d rest].
  - simpl. split; [discriminate | now intros [? _]].
  - change (Strconv.ParseUint (String d rest) 8)
      with (Strconv.parseDigits 8 (String d rest) 0).
    rewrite parseDigits_octal by lia. split.
    + intros H. split; [discriminate | exact H].
    + now intros [_ H].
Qed.

Lemma testbit_typeBits (ty : string) (i : Z) :
  Z.testbit (typeBits ty) i
  = (bool_decide (ty = "directory") && (i =? 31))
    || (bool_decide (ty = "symlink") && (i =? 27)).
Proof.
  unfold typeBits, OS.ModeDir, OS.ModeSymlink.
  destruct (decide (ty = "directory")) as [->|Hd].
  - rewrite Z.shiftl_1_l, Z.pow2_bits_eqb by lia.
    rewrite bool_decide_eq_true_2 by reflexivity.
    rewrite bool_decide_eq_false_2 by discriminate.
    rewrite andb_true_l, andb_false_l, orb_false_r. apply Z.eqb_sym.
  - rewrite (bool_decide_eq_false_2 _ Hd), andb_false_l, orb_false_l.
    destruct (decide (ty = "symlink")) as [->|Hs].
    + rewrite Z.shiftl_1_l, Z.pow2_bits_eqb by lia.
      rewrite bool_decide_eq_true_2 by reflexivity.
      rewrite andb_true_l. apply Z.eqb_sym.
    + rewrite (bool_decide_eq_false_2 _ Hs). apply Z.bits_0.
Qed.

Lemma FileMode_typeBits (s : Superset) :
  FileMode s
  = Z.lor (match Strconv.ParseUint (UnixPermission s) 8 with
           | (m64, None) => OS.wrap_uint32 m64
           | (_, Some _) => 0
           end) (typeBits (Type_ s)).
Proof.
  unfold FileMode, typeBits.
  destruct (Strconv.ParseUint (UnixPermission s) 8) as [m64 [e|]];
    destruct (decide (Type_ s = "directory")) as [Hd|Hd]; try reflexivity;
    destruct (decide (Type_ s = "file")) as [Hf|Hf];
    destruct (decide (Type_ s = "symlink")) as [Hs|Hs];
    try reflexivity; try congruence;
    rewrite ?Z.lor_0_r; try reflexivity; rewrite Hf in Hs; discriminate.
Qed.

Lemma IsDir_testbit (m : Z) : OS.IsDir m = Z.testbit m 31.
Proof.
  unfold OS.IsDir, OS.ModeDir. rewrite Z.shiftl_1_l.
  destruct (Z.testbit m 31) eqn:Hb.
  - apply negb_true_iff, Z.eqb_neq. intros H.
    apply (f_equal (fun z => Z.testbit z 31)) in H.
    rewrite Z.land_spec, Hb, Z.pow2_bits_true, Z.bits_0 in H by lia.
    discriminate.
  - apply negb_false_iff, Z.eqb_eq. apply Z.bits_inj'. intros i Hi.
    rewrite Z.land_spec, Z.bits_0, Z.pow2_bits_eqb by lia.
    destruct (Z.eqb_spec 31 i) as [<-|_]; [now rewrite Hb | apply andb_false_r].
Qed.

Lemma Perm_mod (m : Z) : OS.Perm m = m mod 512.
Proof. unfold OS.Perm. change OS.ModePerm with (Z.ones 9). apply Z.land_ones. lia. Qed.

Lemma FileMode_octal_value (s : Superset) :
  UnixPermission s <> "" -> allOctal (UnixPermission s) = true ->
  octalFrom 0 (UnixPermission s) < 2 ^ 64 ->
  FileMode s
  = Z.lor (octalFrom 0 (UnixPermission s) mod 2 ^ 32) (typeBits (Type_ s)).
Proof.
  intros Hne Ho Hlt.
  assert (Strconv.ParseUint (UnixPermission s) 8
          = (octalFrom 0 (UnixPermission s), None)) as HP
    by (apply ParseUint_octal; now split_and!).
  rewrite FileMode_typeBits, HP. reflexivity.
Qed.

Lemma Perm_lor_typeBits (n : Z) (ty : string) :
  OS.Perm (Z.lor (n mod 2 ^ 32) (typeBits ty)) = n mod 512.
Proof.
  rewrite Perm_mod. change 512 with (2 ^ 9). rewrite <- !Z.land_ones by lia.
  apply Z.bits_inj'. intros i Hi.
  rewrite !Z.land_spec, Z.lor_spec, Z.land_spec, testbit_typeBits.
  destruct (Z.ltb_spec i 9) as [Hlt9|Hge9].
  - rewrite !Z.ones_spec_low by lia.
    replace (i =? 31) with false by (symmetry; apply Z.eqb_neq; lia).
    replace (i =? 27) with false by (symmetry; apply Z.eqb_neq; lia).
    now rewrite !andb_false_r, !andb_true_r, orb_false_r.
  - rewrite (Z.ones_spec_high 9) by lia. now rewrite !andb_false_r.
Qed.

(** X16: FileMode on a permission that is a non-empty string of octal digits
    for a number below 2^64: the mode is the number, cut to 32 bits, with
    the bit of the type set; its permission bits are the last three
    octal digits; and it is a directory's mode exactly when the type is
    "directory" or the number itself has bit 31 set. *)
Theorem FileMode_octal_permission (s : Superset) :
  UnixPermission s <> "" -> allOctal (UnixPermission s) = true ->
  octalFrom 0 (UnixPermission s) < 2 ^ 64 ->
  FileMode s
  = Z.lor (octalFrom 0 (UnixPermission s) mod 2 ^ 32) (typeBits (Type_ s))
  /\ OS.Perm (FileMode s) = octalFrom 0 (UnixPermission s) mod 512
  /\ (OS.IsDir (FileMode s) = true
      <-> Type_ s = "directory"
          \/ Z.testbit (octalFrom 0 (UnixPermission s)) 31 = true).
Proof.
  intros Hne Ho Hlt.
  pose proof (FileMode_octal_value s Hne Ho Hlt) as E.
  set (n := octalFrom 0 (UnixPermission s)) in *.
  split_and!; [exact E | |].
  - rewrite E. apply Perm_lor_typeBits.
  - rewrite IsDir_testbit, E, Z.lor_spec, testbit_typeBits.
    rewrite <- Z.land_ones, Z.land_spec, Z.ones_spec_low by lia.
    rewrite andb_true_r. simpl. rewrite !andb_false_r, andb_true_r, orb_false_r.
    rewrite orb_true_iff, bool_decide_eq_true. tauto.
Qed.

(** X17: FileMode on any other permission (the empty string, a string with a
    character that is not an octal digit, a number of 2^64 or more)
    ignores it: the mode is the bit of the type alone. *)
Theorem FileMode_bad_permission (s : Superset) :
  UnixPermission s = "" \/ allOctal (UnixPermission s) = false
  \/ 2 ^ 64 <= octalFrom 0 (UnixPermission s) ->
  FileMode s = typeBits (Type_ s) /\ OS.Perm (FileMode s) = 0.
Proof.
  intros H.
  assert (FileMode s = typeBits (Type_ s)) as E.
  { rewrite FileMode_typeBits.
    destruct (Strconv.ParseUint (UnixPermission s) 8) as [r [e|]] eqn:HP;
      [apply Z.lor_0_l|].
    apply ParseUint_octal in HP as (Hne & Ho & Hv & Hlt).
    destruct H as [H|[H|H]]; [congruence | congruence | lia]. }
  split; [exact E|]. rewrite E, Perm_mod. unfold typeBits.
  destruct (decide (Type_ s = "directory")); [reflexivity|].
  destruct (decide (Type_ s = "symlink")); reflexivity.
Qed.

(** ** Static sets *)

Lemma fold_members (rs : list BlobRef) (members : list string) :
  fold_left (fun members ref => (members ++ [BlobRef_String ref])%list)
    rs members
  = (members ++ map BlobRef_String rs)%list.
Proof.
  revert members. induction rs as [|r rs IH]; intros members; simpl.
  - now rewrite app_nil_r.
  - now rewrite IH, <- app_assoc.
Qed.

Lemma refs_fold_Add (rs : list BlobRef) (ss : StaticSet) :
  refs (fold_left StaticSet_Add rs ss) = (refs ss ++ rs)%list.
Proof.
  revert ss. induction rs as [|r rs IH]; intros ss; simpl.
  - now rewrite app_nil_r.
  - rewrite IH. simpl. now rewrite <- app_assoc.
Qed.

(** X18: a static set is a list: the map of a set lists, under members, the
    references added so far in the order of the calls of Add, each as
    often as it was added; a set nothing was added to has the empty list
    of members. *)
Theorem StaticSet_Map_members (ss : StaticSet) (rs : list BlobRef) :
  StaticSet_Map (fold_left StaticSet_Add rs ss) !! "members"
  = Some (VStrings (map BlobRef_String (refs ss ++ rs)))
  /\ StaticSet_Map (fold_left StaticSet_Add rs ss) !! "camliType"
     = Some (VString "static-set")
  /\ StaticSet_Map (fold_left StaticSet_Add rs ss) !! "camliVersion"
     = Some (VInt 1)
  /\ StaticSet_Map (mkStaticSet []) !! "members" = Some (VStrings [])
  /\ forall r,
       StaticSet_Map (StaticSet_Add (StaticSet_Add ss r) r) !! "members"
       = Some (VStrings (map BlobRef_String (refs ss)
                         ++ [BlobRef_String r; BlobRef_String r])).
Proof.
  unfold StaticSet_Map. rewrite fold_members, refs_fold_Add. simpl.
  split_and!; try reflexivity.
  intros r. rewrite lookup_insert_eq, fold_members. simpl.
  now rewrite <- app_assoc, map_app.
Qed.

(** ** Maps of files, symbolic links and directories *)

Section FileMapFacts.
Variable Base : string -> string.
Variable ValidString : string -> bool.

(** X19: the map of a file has camliVersion 1 and camliType "file"; for a
    file name that is not empty it holds the base name, under fileName
    when the base name is valid UTF-8 and under fileNameBytes otherwise,
    never under both; for the empty file name it holds neither. *)
Theorem NewFileMap_name (fileName : string) :
  NewFileMap Base ValidString fileName !! "camliVersion" = Some (VInt 1)
  /\ NewFileMap Base ValidString fileName !! "camliType"
     = Some (VString "file")
  /\ NewFileMap Base ValidString fileName !! "fileName"
     = (if decide (fileName <> "") then
          if ValidString (Base fileName) then Some (VString (Base fileName))
          else None
        else None)
  /\ NewFileMap Base ValidString fileName !! "fileNameBytes"
     = (if decide (fileName <> "") then
          if ValidString (Base fileName) then None
          else Some (VBytes (Base fileName))
        else None)
  /\ ~ (is_Some (NewFileMap Base ValidString fileName !! "fileName")
        /\ is_Some (NewFileMap Base ValidString fileName !! "fileNameBytes"))
  /\ forall k, is_Some (NewFileMap Base ValidString fileName !! k) ->
       k = "camliVersion" \/ k = "camliType" \/ k = "fileName"
       \/ k = "fileNameBytes".
Proof.
  unfold NewFileMap, NewCommonFilenameMap, newCamliMap.
  destruct (decide (fileName <> "")) as [Hne|He];
    [destruct (ValidString (Base fileName))|];
    (split_and!; try reflexivity;
     [ intros [[? H1] [? H2]]; simplify_map_eq
     | intros k [v Hk];
       repeat (apply lookup_insert_Some in Hk as [[<- _]|[_ Hk]]; [tauto|]);
       rewrite lookup_empty in Hk; discriminate ]).
Qed.

(** X20: PopulateSymlinkMap sets camliType to "symlink" before it reads the
    link, so that the map is changed also when reading fails; when
    reading succeeds the target is stored under symlinkTarget if it is
    valid UTF-8 and under symlinkTargetBytes otherwise; no other key is
    touched. *)
Theorem PopulateSymlinkMap_keys (Readlink : string -> result string)
    (g : gmap string value) (fileName : string) :
  exists g',
    fst (PopulateSymlinkMap ValidString Readlink (Some g) fileName) = Some g'
    /\ g' !! "camliType" = Some (VString "symlink")
    /\ (forall k, k <> "camliType" -> k <> "symlinkTarget" ->
          k <> "symlinkTargetBytes" -> g' !! k = g !! k)
    /\ match Readlink fileName with
       | Err err =>
           snd (PopulateSymlinkMap ValidString Readlink (Some g) fileName)
           = Returned (Some err)
           /\ g' = <["camliType" := VString "symlink"]> g
       | Ok target =>
           snd (PopulateSymlinkMap ValidString Readlink (Some g) fileName)
           = Returned None
           /\ if ValidString target then
                g' !! "symlinkTarget" = Some (VString target)
                /\ g' !! "symlinkTargetBytes" = g !! "symlinkTargetBytes"
              else
                g' !! "symlinkTargetBytes" = Some (VBytes target)
                /\ g' !! "symlinkTarget" = g !! "symlinkTarget"
       end.
Proof.
  unfold PopulateSymlinkMap.
  destruct (Readlink fileName) as [target|err];
    [destruct (ValidString target)|]; simpl; eexists;
    (split; [reflexivity|]); split_and!; try reflexivity;
    try (intros k H1 H2 H3); now simplify_map_eq.
Qed.
End FileMapFacts.

(** X21: PopulateDirectoryMap turns any map into the map of a directory: it
    sets camliType, whatever it was, and entries, and keeps every other
    key, so that the map of a file name made by NewFileMap keeps its
    name; a nil map makes it panic. *)
Theorem PopulateDirectoryMap_keys (g : gmap string value) (ref : BlobRef) :
  PopulateDirectoryMap None ref = (None, Panicked)
  /\ exists g',
       PopulateDirectoryMap (Some g) ref = (Some g', Returned None)
       /\ g' !! "camliType" = Some (VString "directory")
       /\ g' !! "entries" = Some (VString (BlobRef_String ref))
       /\ (forall k, k <> "camliType" -> k <> "entries" -> g' !! k = g !! k).
Proof.
  split; [reflexivity|]. eexists. split; [reflexivity|].
  split_and!; try (intros k H1 H2); now simplify_map_eq.
Qed.

(** ** NewCommonFileMap *)

Lemma permission_texts : TimeModel.checkFrom permissionOK 512 0 = true.
Proof. vm_compute. reflexivity. Qed.

Lemma formatOctal_perm (p : Z) :
  0 <= p < 512 ->
  allOctal ("0" +:+ formatOctal p) = true
  /\ octalFrom 0 ("0" +:+ formatOctal p) = p.
Proof.
  intros Hp.
  pose proof (TimeFacts.checkFrom_sound permissionOK 512 0 permission_texts p
                ltac:(lia)) as H.
  unfold permissionOK in H. apply andb_true_iff in H as [H1 H2].
  split; [exact H1 | now apply Z.eqb_eq].
Qed.

Lemma fold_keeps {A K : Type} `{Countable K} {V : Type}
    (fs : list (gmap K V -> A -> gmap K V)) (a : A) (k : K) :
  Forall (fun f => forall m, f m a !! k = m !! k) fs ->
  forall m, fold_left (fun m f => f m a) fs m !! k = m !! k.
Proof.
  induction 1 as [|f fs Hf _ IH]; intros m; simpl; [reflexivity|].
  now rewrite IH, Hf.
Qed.

Section CommonFileMapFacts.
Variable Base : string -> string.
Variable ValidString : string -> bool.
Variable populateSchemaStat :
  list (gmap string value -> FileInfo -> gmap string value).

(** X22: the modification time of a file: when it is not the zero time it is
    written under unixMtime, after the functions of the operating system
    have run and whatever they did; and, the instant being one whose
    Unix time in nanoseconds is an int64, ModTime reads it back from a
    Superset with this unixMtime. *)
Theorem NewCommonFileMap_mtime (fileName : string) (fi : FileInfo) :
  IsZero (FileInfo_ModTime fi) = false ->
  NewCommonFileMap Base ValidString populateSchemaStat fileName fi
    !! "unixMtime"
  = Some (VString (RFC3339FromTime (FileInfo_ModTime fi)))
  /\ (GoTime.wfTime (FileInfo_ModTime fi) -> nanosFit (FileInfo_ModTime fi) ->
      forall s,
        ModTime (withMtime (RFC3339FromTime (FileInfo_ModTime fi)) s)
        = GoTime.UTC (FileInfo_ModTime fi)).
Proof.
  intros Hz. split.
  - unfold NewCommonFileMap. rewrite Hz. simpl. apply lookup_insert_eq.
  - intros Hwf Hfit s.
    pose proof (Parse_RFC3339FromTime _ Hwf Hfit) as HP.
    unfold ModTime. simpl.
    destruct (decide (RFC3339FromTime (FileInfo_ModTime fi) = ""))
      as [E0|_].
    + rewrite E0 in HP. discriminate HP.
    + now rewrite HP.
Qed.

(** X23: the permission of a file: when the functions of the operating system
    leave unixPermission alone, the map of a file that is not a symbolic
    link holds the permission bits as an octal text that FileMode reads
    back to the same bits, and the map of a symbolic link holds no
    permission. *)
Theorem NewCommonFileMap_permission (fileName : string) (fi : FileInfo) :
  Forall (fun f => forall m, f m fi !! "unixPermission" = m !! "unixPermission")
    populateSchemaStat ->
  (Z.land (Mode fi) OS.ModeSymlink = 0 ->
   exists perm,
     NewCommonFileMap Base ValidString populateSchemaStat fileName fi
       !! "unixPermission" = Some (VString perm)
     /\ forall s, OS.Perm (FileMode (withPermission perm s))
                  = OS.Perm (Mode fi))
  /\ (Z.land (Mode fi) OS.ModeSymlink <> 0 ->
      NewCommonFileMap Base ValidString populateSchemaStat fileName fi
        !! "unixPermission" = None).
Proof.
  intros Hkeep.
  assert (forall m : gmap string value,
            (if negb (IsZero (FileInfo_ModTime fi)) then
               <["unixMtime" := VString (RFC3339FromTime (FileInfo_ModTime fi))]> m
             else m) !! "unixPermission" = m !! "unixPermission") as Hm.
  { intros m. destruct (negb (IsZero (FileInfo_ModTime fi)));
      [now rewrite lookup_insert_ne|reflexivity]. }
  assert (NewCommonFilenameMap Base ValidString fileName !! "unixPermission"
          = None) as Hn.
  { unfold NewCommonFilenameMap, newCamliMap.
    destruct (decide (fileName <> "")); [destruct (ValidString _)|];
      now simplify_map_eq. }
  split.
  - intros Hs. exists ("0" +:+ formatOctal (OS.Perm (Mode fi))). split.
    + unfold NewCommonFileMap. cbv zeta. rewrite Hm, fold_keeps by exact Hkeep.
      rewrite Hs. simpl. apply lookup_insert_eq.
    + intros s.
      assert (0 <= OS.Perm (Mode fi) < 512) as Hp.
      { rewrite Perm_mod. apply Z.mod_pos_bound. lia. }
      destruct (formatOctal_perm _ Hp) as [Ho Hv].
      set (perm := "0" +:+ formatOctal (OS.Perm (Mode fi))) in *.
      pose proof (FileMode_octal_value (withPermission perm s)) as HF.
      change (UnixPermission (withPermission perm s)) with perm in HF.
      rewrite HF, Perm_lor_typeBits, Hv by (discriminate || assumption || lia).
      apply Z.mod_small. exact Hp.
  - intros Hs. unfold NewCommonFileMap. cbv zeta.
    rewrite Hm, fold_keeps by exact Hkeep.
    apply Z.eqb_neq in Hs. rewrite Hs. exact Hn.
Qed.
End CommonFileMapFacts.

(** ** Examples *)

Ltac closed_bounds := vm_compute; repeat split; discriminate || reflexivity.

Lemma RFC3339FromTime_canonical_witness :
  RFC3339FromTime leapDayNoon = RFC3339FromTime (GoTime.UTC leapDayNoon)
  <-> GoTime.sec leapDayNoon = GoTime.sec (GoTime.UTC leapDayNoon)
      /\ GoTime.nsec leapDayNoon = GoTime.nsec (GoTime.UTC leapDayNoon).
Proof.
  apply RFC3339FromTime_canonical; closed_bounds.
Defined.

Lemma ModTime_RFC3339FromTime_witness :
  ModTime (withMtime "2012-02-29T12:00:00.5Z" zeroSuperset)
  = GoTime.UTC leapDayNoon
  /\ GoTime.UnixNano (ModTime (withMtime "2012-02-29T12:00:00.5Z" zeroSuperset))
     = GoTime.UnixNano leapDayNoon
  /\ IsZero (ModTime (withMtime "2012-02-29T12:00:00.5Z" zeroSuperset))
     = IsZero leapDayNoon.
Proof.
  apply (ModTime_RFC3339FromTime leapDayNoon
           (withMtime "2012-02-29T12:00:00.5Z" zeroSuperset));
    [closed_bounds | closed_bounds | vm_compute; reflexivity].
Defined.

Lemma NanosFromRFC3339_minus_one_witness :
  RFC3339FromTime lastOf1969 = "1969-12-31T23:59:59.999999999Z"
  /\ is_Some (GoTime.Parse (RFC3339FromTime lastOf1969))
  /\ NanosFromRFC3339 (RFC3339FromTime lastOf1969) = -1
  /\ NanosFromRFC3339 "" = -1.
Proof.
  apply NanosFromRFC3339_minus_one; [closed_bounds | reflexivity | reflexivity].
Defined.

Lemma FileMode_octal_permission_witness :
  FileMode (withPermission "0755" (withType None "directory" zeroSuperset))
  = Z.lor 493 OS.ModeDir
  /\ OS.Perm (FileMode (withPermission "0755"
                          (withType None "directory" zeroSuperset))) = 493
  /\ (OS.IsDir (FileMode (withPermission "0755"
                            (withType None "directory" zeroSuperset))) = true
      <-> "directory" = "directory" \/ Z.testbit 493 31 = true).
Proof.
  apply (FileMode_octal_permission
           (withPermission "0755" (withType None "directory" zeroSuperset)));
    [discriminate | reflexivity | reflexivity].
Defined.

Lemma FileMode_bad_permission_witness :
  FileMode (withPermission "rwxr-xr-x" (withType None "symlink" zeroSuperset))
  = OS.ModeSymlink
  /\ OS.Perm (FileMode (withPermission "rwxr-xr-x"
                          (withType None "symlink" zeroSuperset))) = 0.
Proof.
  apply (FileMode_bad_permission
           (withPermission "rwxr-xr-x" (withType None "symlink" zeroSuperset))).
  right. left. reflexivity.
Defined.

Lemma NewCommonFileMap_mtime_witness :
  NewCommonFileMap (fun s => s) (fun _ => true) [] "notes.txt" plainFileInfo
    !! "unixMtime" = Some (VString (RFC3339FromTime leapDayNoon))
  /\ ModTime (withMtime (RFC3339FromTime leapDayNoon) zeroSuperset)
     = GoTime.UTC leapDayNoon.
Proof.
  destruct (NewCommonFileMap_mtime (fun s => s) (fun _ => true) []
              "notes.txt" plainFileInfo eq_refl) as [H1 H2].
  split; [exact H1|]. apply H2; closed_bounds.
Defined.

Lemma NewCommonFileMap_permission_witness :
  exists perm,
    NewCommonFileMap (fun s => s) (fun _ => true) [] "notes.txt" plainFileInfo
      !! "unixPermission" = Some (VString perm)
    /\ forall s, OS.Perm (FileMode (withPermission perm s)) = 420.
Proof.
  exact (proj1 (NewCommonFileMap_permission (fun s => s) (fun _ => true) []
                  "notes.txt" plainFileInfo (Forall_nil_2 _)) eq_refl).
Defined.

Lemma claimDate_reads_back_witness :
  exists date,
    NewDelAttributeClaim leapDayNoon someRef "tag" !! "claimDate"
    = Some (VString date)
    /\ NanosFromRFC3339 date = GoTime.UnixNano leapDayNoon.
Proof.
  apply (claimDate_reads_back leapDayNoon someRef "" "tag" "");
    [closed_bounds | closed_bounds | now right; right; right].
Defined.

(** ** The mixed-array decoder, continued *)

Section MixedArrayMore.
Variable overflow : Go.float64 -> ascii.

Lemma concatStrings_app (l1 l2 : list string) :
  concatStrings (l1 ++ l2) = concatStrings l1 +:+ concatStrings l2.
Proof.
  induction l1 as [|s l1 IH]; simpl; [now rewrite append_nil_l|].
  now rewrite IH, append_assoc.
Qed.

Lemma byte_of_Z_ascii (c : ascii) : Go.byte_of_Z (Z.of_N (N_of_ascii c)) = c.
Proof. unfold Go.byte_of_Z. now rewrite N2Z.id, ascii_N_embedding. Qed.

(** X24: decoding goes through concatenation, and undoes both ways of
    writing bytes: an array of strings decodes to the strings joined, and
    an array of numbers, each a byte of a string as a float64 (fraction
    or not), decodes to that string. *)
Theorem stringFromMixedArray_bytes (parts1 parts2 : list Go.iface)
    (strs : list string) (nums : list Go.float64) (bytes : list ascii) :
  Forall2 (fun num c => Go.float64_trunc num = Some (Z.of_N (N_of_ascii c)))
    nums bytes ->
  stringFromMixedArray overflow (parts1 ++ parts2)
  = stringFromMixedArray overflow parts1
    +:+ stringFromMixedArray overflow parts2
  /\ stringFromMixedArray overflow (map Go.IString strs) = concatStrings strs
  /\ stringFromMixedArray overflow (map Go.IFloat64 nums)
     = string_of_list_ascii bytes.
Proof.
  intros H. rewrite !stringFromMixedArray_concat. split_and!.
  - now rewrite map_app, concatStrings_app.
  - induction strs as [|s strs IH]; simpl; [reflexivity | now rewrite IH].
  - induction H as [|num c nums bytes Hc _ IH]; simpl; [reflexivity|].
    rewrite IH, (byte_of_float64_in_range overflow num _ Hc).
    + now rewrite byte_of_Z_ascii.
    + pose proof (N_ascii_bounded c). lia.
Qed.
End MixedArrayMore.

Lemma stringFromMixedArray_bytes_witness :
  stringFromMixedArray (fun _ => "?"%char)
    (map Go.IFloat64 [S754_finite false 72 0; S754_finite false 211 (-1)])
  = "Hi".
Proof.
  refine (proj2 (proj2 (stringFromMixedArray_bytes (fun _ => "?"%char)
                          [] [] []
                          [S754_finite false 72 0; S754_finite false 211 (-1)]
                          ["H"; "i"]%char _))).
  repeat constructor.
Defined.

(** ** NewUnsignedPermanode *)

Lemma bytes_checked : TimeModel.checkFrom byteOK 256 0 = true.
Proof. vm_compute. reflexivity. Qed.

Lemma lor_checked : TimeModel.checkFrom lorOK 64 0 = true.
Proof. vm_compute. reflexivity. Qed.

Lemma blocks_checked : TimeModel.checkFrom blockOK 64 0 = true.
Proof. vm_compute. reflexivity. Qed.

Lemma byte_ops (a : Z) :
  isByte a ->
  Base64.shr a 2 = a / 4 /\ Base64.shr a 4 = a / 16 /\ Base64.shr a 6 = a / 64
  /\ Z.land (Base64.shl a 4) 63 = (a mod 4) * 16
  /\ Z.land (Base64.shl a 2) 63 = (a mod 16) * 4
  /\ Z.land a 63 = a mod 64.
Proof.
  intros Ha.
  pose proof (TimeFacts.checkFrom_sound byteOK 256 0 bytes_checked a
                ltac:(unfold isByte in Ha; lia)) as H.
  unfold byteOK in H. rewrite !andb_true_iff, !Z.eqb_eq in H. tauto.
Qed.

Lemma lor_blocks (p : Z) :
  0 <= p < 64 ->
  Z.lor (p mod 16) ((p / 16) * 16) = p /\ Z.lor (p mod 4) ((p / 4) * 4) = p.
Proof.
  intros Hp.
  pose proof (TimeFacts.checkFrom_sound lorOK 64 0 lor_checked p
                ltac:(lia)) as H.
  unfold lorOK in H. rewrite !andb_true_iff, !Z.eqb_eq in H. tauto.
Qed.

Lemma block_char (i : Z) :
  0 <= i < 64 ->
  decodeChar (Base64.encodeChar i) = i
  /\ (Base64.encodeChar i =? Base64.pad)%char = false.
Proof.
  intros Hi.
  pose proof (TimeFacts.checkFrom_sound blockOK 64 0 blocks_checked i
                ltac:(lia)) as H.
  unfold blockOK in H. rewrite andb_true_iff, Z.eqb_eq, negb_true_iff in H.
  exact H.
Qed.

(** The blocks of a group, as numbers. *)
Lemma lor_low_high (x k m : Z) :
  m = 16 \/ m = 4 -> 0 <= x < m -> 0 <= k -> k * m < 64 ->
  Z.lor x (k * m) = x + k * m.
Proof.
  intros Hm Hx Hk Hlt.
  assert (0 <= x + k * m < 64) as Hp by lia.
  destruct (lor_blocks _ Hp) as [H16 H4].
  destruct Hm as [-> | ->].
  - replace ((x + k * 16) mod 16) with x in H16
      by (rewrite Z.mod_add by lia; symmetry; apply Z.mod_small; lia).
    replace ((x + k * 16) / 16) with k in H16
      by (rewrite Z.div_add by lia; rewrite Z.div_small by lia; lia).
    exact H16.
  - replace ((x + k * 4) mod 4) with x in H4
      by (rewrite Z.mod_add by lia; symmetry; apply Z.mod_small; lia).
    replace ((x + k * 4) / 4) with k in H4
      by (rewrite Z.div_add by lia; rewrite Z.div_small by lia; lia).
    exact H4.
Qed.

Lemma Encode_three (s0 s1 s2 : Z) (rest : list Z) :
  isByte s0 -> isByte s1 -> isByte s2 ->
  Base64.Encode (s0 :: s1 :: s2 :: rest)
  = Base64.encodeChar (s0 / 4)
    :: Base64.encodeChar (s1 / 16 + (s0 mod 4) * 16)
    :: Base64.encodeChar (s2 / 64 + (s1 mod 16) * 4)
    :: Base64.encodeChar (s2 mod 64) :: Base64.Encode rest.
Proof.
  intros H0 H1 H2.
  destruct (byte_ops s0 H0) as (E02 & _ & _ & E04 & _ & _).
  destruct (byte_ops s1 H1) as (_ & E14 & _ & _ & E12 & _).
  destruct (byte_ops s2 H2) as (_ & _ & E26 & _ & _ & E2m).
  unfold isByte in *.
  change (Base64.Encode (s0 :: s1 :: s2 :: rest))
    with (Base64.encodeChar (Base64.shr s0 2)
          :: Base64.encodeChar
               (Z.lor (Base64.shr s1 4) (Z.land (Base64.shl s0 4) 63))
          :: Base64.encodeChar
               (Z.lor (Base64.shr s2 6) (Z.land (Base64.shl s1 2) 63))
          :: Base64.encodeChar (Z.land s2 63) :: Base64.Encode rest).
  rewrite E02, E04, E14, E12, E26, E2m.
  rewrite (lor_low_high (s1 / 16) (s0 mod 4) 16), (lor_low_high (s2 / 64) (s1 mod 16) 4);
    try reflexivity; try (now left); try (now right);
    try (pose proof (Z.mod_pos_bound s0 4 ltac:(lia));
         pose proof (Z.mod_pos_bound s1 16 ltac:(lia));
         lia);
    split; try (apply Z.div_pos; lia);
    apply Z.div_lt_upper_bound; lia.
Qed.

Lemma Encode_one (s0 : Z) :
  isByte s0 ->
  Base64.Encode [s0]
  = [Base64.encodeChar (s0 / 4); Base64.encodeChar ((s0 mod 4) * 16);
     Base64.pad; Base64.pad].
Proof.
  intros H0. destruct (byte_ops s0 H0) as (E02 & _ & _ & E04 & _ & _).
  change (Base64.Encode [s0])
    with [Base64.encodeChar (Base64.shr s0 2);
          Base64.encodeChar (Z.land (Base64.shl s0 4) 63);
          Base64.pad; Base64.pad].
  now rewrite E02, E04.
Qed.

Lemma Encode_two (s0 s1 : Z) :
  isByte s0 -> isByte s1 ->
  Base64.Encode [s0; s1]
  = [Base64.encodeChar (s0 / 4);
     Base64.encodeChar (s1 / 16 + (s0 mod 4) * 16);
     Base64.encodeChar ((s1 mod 16) * 4); Base64.pad].
Proof.
  intros H0 H1.
  destruct (byte_ops s0 H0) as (E02 & _ & _ & E04 & _ & _).
  destruct (byte_ops s1 H1) as (_ & E14 & _ & _ & E12 & _).
  unfold isByte in *.
  change (Base64.Encode [s0; s1])
    with [Base64.encodeChar (Base64.shr s0 2);
          Base64.encodeChar
            (Z.lor (Base64.shr s1 4) (Z.land (Base64.shl s0 4) 63));
          Base64.encodeChar (Z.land (Base64.shl s1 2) 63); Base64.pad].
  rewrite E02, E04, E14, E12.
  rewrite (lor_low_high (s1 / 16) (s0 mod 4) 16); try reflexivity;
    try (now left);
    try (pose proof (Z.mod_pos_bound s0 4 ltac:(lia)); lia).
  split; [apply Z.div_pos; lia | apply Z.div_lt_upper_bound; lia].
Qed.

Lemma list_ind3 {A : Type} (P : list A -> Prop) :
  P [] -> (forall a, P [a]) -> (forall a b, P [a; b]) ->
  (forall a b c rest, P rest -> P (a :: b :: c :: rest)) ->
  forall l, P l.
Proof.
  intros H0 H1 H2 H3 l.
  assert (P l /\ (forall a, P (a :: l)) /\ forall a b, P (a :: b :: l))
    as [H _].
  { induction l as [|x l (IH0 & IH1 & IH2)]; [now split_and!|].
    split_and!; [apply IH1 | intros a; apply IH2 | intros a b; now apply H3]. }
  exact H.
Qed.

Ltac block_bounds := unfold isByte in *; Z.div_mod_to_equations.

(** Reading the text of [Encode] back gives the bytes. *)
Lemma Decode_Encode (src : list Z) :
  Forall isByte src -> Decode (Base64.Encode src) = src.
Proof.
  induction src as [|s0|s0 s1|s0 s1 s2 rest IH] using list_ind3; intros H.
  - reflexivity.
  - apply Forall_cons in H as [H0 _]. rewrite Encode_one by exact H0.
    cbn [Decode]. rewrite Ascii.eqb_refl. unfold decodeGroup. cbn [take].
    rewrite (proj1 (block_char (s0 / 4) ltac:(block_bounds; lia))).
    rewrite (proj1 (block_char ((s0 mod 4) * 16) ltac:(block_bounds; lia))).
    f_equal. rewrite Z.div_mul by lia. block_bounds. lia.
  - apply Forall_cons in H as [H0 H]. apply Forall_cons in H as [H1 _].
    rewrite Encode_two by assumption. cbn [Decode].
    rewrite (proj2 (block_char ((s1 mod 16) * 4) ltac:(block_bounds; lia))).
    rewrite Ascii.eqb_refl. unfold decodeGroup. cbn [take].
    rewrite (proj1 (block_char (s0 / 4) ltac:(block_bounds; lia))).
    rewrite (proj1 (block_char (s1 / 16 + (s0 mod 4) * 16)
                      ltac:(block_bounds; lia))).
    rewrite (proj1 (block_char ((s1 mod 16) * 4) ltac:(block_bounds; lia))).
    rewrite Z.div_add, Z.mod_add, Z.div_mul by lia.
    rewrite (Z.mod_small (s1 / 16)), (Z.div_small (s1 / 16))
      by (block_bounds; lia).
    f_equal; [block_bounds; lia|]. f_equal. block_bounds. lia.
  - apply Forall_cons in H as [H0 H]. apply Forall_cons in H as [H1 H].
    apply Forall_cons in H as [H2 H].
    rewrite Encode_three by assumption. cbn [Decode].
    rewrite (proj2 (block_char (s2 / 64 + (s1 mod 16) * 4)
                      ltac:(block_bounds; lia))).
    rewrite (proj2 (block_char (s2 mod 64) ltac:(block_bounds; lia))).
    unfold decodeGroup.
    rewrite (proj1 (block_char (s0 / 4) ltac:(block_bounds; lia))).
    rewrite (proj1 (block_char (s1 / 16 + (s0 mod 4) * 16)
                      ltac:(block_bounds; lia))).
    rewrite (proj1 (block_char (s2 / 64 + (s1 mod 16) * 4)
                      ltac:(block_bounds; lia))).
    rewrite (proj1 (block_char (s2 mod 64) ltac:(block_bounds; lia))).
    rewrite !Z.div_add, !Z.mod_add by lia.
    rewrite (Z.mod_small (s1 / 16)), (Z.div_small (s1 / 16)),
      (Z.mod_small (s2 / 64)), (Z.div_small (s2 / 64))
      by (block_bounds; lia).
    rewrite IH by exact H. simpl.
    f_equal; [block_bounds; lia|]. f_equal; [block_bounds; lia|].
    f_equal. block_bounds. lia.
Qed.

Lemma byteValues_isByte (s : string) : Forall isByte (Base64.byteValues s).
Proof.
  unfold Base64.byteValues. apply Forall_map, Forall_forall. intros c _.
  unfold isByte. pose proof (N_ascii_bounded c). simpl. lia.
Qed.

Lemma byteValues_inj (s1 s2 : string) :
  Base64.byteValues s1 = Base64.byteValues s2 -> s1 = s2.
Proof.
  revert s2. induction s1 as [|c1 s1 IH]; intros [|c2 s2]; try discriminate;
    [reflexivity|].
  unfold Base64.byteValues. simpl. intros [= Hc Hs]. f_equal.
  - apply N2Z.inj in Hc.
    now rewrite <- (ascii_N_embedding c1), <- (ascii_N_embedding c2), Hc.
  - now apply IH.
Qed.

Lemma EncodeToString_inj (s1 s2 : string) :
  Base64.EncodeToString s1 = Base64.EncodeToString s2 -> s1 = s2.
Proof.
  unfold Base64.EncodeToString. intros H.
  apply (f_equal list_ascii_of_string) in H.
  rewrite !list_ascii_of_string_of_list_ascii in H.
  apply (f_equal Decode) in H.
  rewrite !Decode_Encode in H by apply byteValues_isByte.
  now apply byteValues_inj.
Qed.

(** X25: the map of a new permanode holds camliVersion 1, camliType
    "permanode" and, under random, the 20 random bytes as a base64 text
    of 28 characters, the last one the padding; it is the random bytes
    that tell permanodes apart, and they do: maps made from different
    bytes are different.  When no random bytes can be read, the call
    panics. *)
Theorem NewUnsignedPermanode_random :
  (forall err, NewUnsignedPermanode (Err err) = None)
  /\ (forall chars, String.length chars = 20%nat ->
      exists text,
        NewUnsignedPermanode (Ok chars)
        = Some (<["random" := VString text]> (newCamliMap 1 "permanode"))
        /\ text = Base64.EncodeToString chars
        /\ String.length text = 28%nat
        /\ String.get 27 text = Some "="%char)
  /\ (forall chars1 chars2,
      NewUnsignedPermanode (Ok chars1) = NewUnsignedPermanode (Ok chars2) ->
      chars1 = chars2).
Proof.
  split_and!.
  - reflexivity.
  - intros chars Hlen. eexists. split_and!; try reflexivity.
    + do 20 (destruct chars as [|? chars]; [discriminate|]).
      destruct chars; [reflexivity | discriminate].
    + do 20 (destruct chars as [|? chars]; [discriminate|]).
      destruct chars; [reflexivity | discriminate].
  - unfold NewUnsignedPermanode. intros chars1 chars2 H.
    apply (f_equal (fun o : option (gmap string value) =>
                      o ≫= fun m => m !! "random")) in H.
    cbn [mbind option_bind] in H. rewrite !lookup_insert_eq in H.
    apply EncodeToString_inj. congruence.
Qed.
